(** * Interactive research driver: a shallow embedding and its properties

    The client-side session driver of
    [openai_agents/run_interactive_research_workflow.py] is embedded as an
    interaction tree over the calls it makes to the workflow engine, the
    terminal and the clock.  Python exceptions are values of an error monad
    layered on the tree; [while] loops are [ITree.iter]. *)

From Stdlib Require Import String Ascii List ZArith Lia Bool DecimalString.
From ITree Require Import ITree Eq.Shallow.
Import ListNotations.

Local Open Scope string_scope.

(** ** Python strings

    A [str] is modelled by [string]; a character is a code point below 256,
    which is where the driver's vocabulary and separators live. *)
Module PyStr.

(** [str.isspace] on one code point below 256. *)
Definition isspace (c : ascii) : bool :=
  let n := nat_of_ascii c in
  ((9 <=? n) && (n <=? 13) || (28 <=? n) && (n <=? 32)
   || (n =? 133) || (n =? 160))%nat.

Fixpoint lstrip (s : string) : string :=
  match s with
  | String c s' => if isspace c then lstrip s' else s
  | EmptyString => EmptyString
  end.

(** Drops the trailing white space: a character is kept when something
    that is kept follows it, or when it is not white space itself. *)
Fixpoint rstrip (s : string) : string :=
  match s with
  | EmptyString => EmptyString
  | String c s' =>
      match rstrip s' with
      | EmptyString => if isspace c then EmptyString else String c EmptyString
      | r => String c r
      end
  end.

(** [s.strip()] *)
Definition strip (s : string) : string := rstrip (lstrip s).

Definition lower_char (c : ascii) : ascii :=
  let n := nat_of_ascii c in
  if ((65 <=? n) && (n <=? 90)
      || (192 <=? n) && (n <=? 222) && negb (n =? 215))%nat
  then ascii_of_nat (n + 32) else c.

(** [s.lower()] *)
Fixpoint lower (s : string) : string :=
  match s with
  | EmptyString => EmptyString
  | String c s' => String (lower_char c) (lower s')
  end.

(** [x in xs] for a list of strings. *)
Definition mem (x : string) (xs : list string) : bool :=
  existsb (String.eqb x) xs.

(** [c in s] for a one-character needle. *)
Fixpoint contains_char (c : ascii) (s : string) : bool :=
  match s with
  | EmptyString => false
  | String d s' => Ascii.eqb c d || contains_char c s'
  end.

(** [s.split(c, 1)]: at most one cut, at the first occurrence of [c]. *)
Fixpoint split1 (c : ascii) (s : string) : list string :=
  match s with
  | EmptyString => [EmptyString]
  | String d s' =>
      if Ascii.eqb c d then [EmptyString; s']
      else match split1 c s' with
           | hd :: tl => String d hd :: tl
           | [] => []
           end
  end.

(** [str(n)] for an [int]. *)
Definition of_int (n : Z) : string := NilZero.string_of_int (Z.to_int n).

(** A truthy string is a non-empty one: [s or d]. *)
Definition or_else (s d : string) : string :=
  match s with EmptyString => d | _ => s end.

End PyStr.

(** ** The status snapshot ([ResearchInteraction]) *)

Record ResearchInteraction := mkInteraction {
  status : string;
  clarification_questions : option (list string);
  current_question_index : option Z;
  final_result : option string
}.

(** Modelled from the spec: [get_current_question] lives in
    [research_models], which is not part of the sources at hand.  The
    current question is the one at [current_question_index] when that index
    is within the bounds of [clarification_questions], and none otherwise. *)
Definition get_current_question (s : ResearchInteraction) : option string :=
  match clarification_questions s, current_question_index s with
  | Some qs, Some i =>
      if ((0 <=? i) && (i <? Z.of_nat (length qs)))%Z
      then nth_error qs (Z.to_nat i) else None
  | _, _ => None
  end.

(** [len(status.clarification_questions or [])] *)
Definition question_count (s : ResearchInteraction) : nat :=
  match clarification_questions s with
  | Some qs => length qs
  | None => O
  end.

(** ** What the driver talks to *)

Definition exn := string.
Definition Client := nat.
Definition Handle := nat.

(** Lines printed on the terminal, one constructor per [print] call. *)
Inductive msg : Type :=
| MStarting (query : string)
| MChecking
| MFoundExisting
| MExistingNotRunning
| MCouldNotQuery
| MNotFound
| MStartingNew (unique_id : string)
| MFailedStart (e : exn)
| MInitiating (query : string)
| MNeedClarifications
| MDashes
| MQuestionOf (position : Z) (total : nat)
| MQuestion (q : string)
| MEnding
| MResearchInProgress
| MPlanning
| MGathering
| MCompiling
| MPleaseWait
| MPendingStart
| MUnexpected (st : string)
| MError (e : exn)
| MTerminated (coarse : string)
| MCompleted
| MResultHeader
| MEquals
| MResult (r : string).

(** The calls that leave the driver. *)
Inductive call : Type :=
| GetWorkflowHandle (c : Client) (workflow_id : string)
| StartWorkflow (c : Client) (id : string) (task_queue : string)
| QueryGetStatus (h : Handle)
| UpdateStartResearch (h : Handle) (query : string)
| UpdateProvideSingle (h : Handle) (question_index : option Z) (answer : string)
| SignalEndWorkflow (h : Handle)
| Describe (h : Handle)
| Result (h : Handle)
| Time
| Sleep (seconds : nat)
| Input (prompt : string)
| Print (m : msg).

(** What each call hands back; [inl] is a raised [Exception]. *)
Definition resp (c : call) : Type :=
  match c with
  | GetWorkflowHandle _ _ => exn + Handle
  | StartWorkflow _ _ _ => exn + Handle
  | QueryGetStatus _ => exn + option ResearchInteraction
  | UpdateStartResearch _ _ => exn + ResearchInteraction
  | UpdateProvideSingle _ _ _ => exn + ResearchInteraction
  | SignalEndWorkflow _ => exn + unit
  | Describe _ => exn + string
  | Result _ => exn + string
  | Time => Z
  | Sleep _ => unit
  | Input _ => exn + string
  | Print _ => unit
  end%type.

Variant driverE : Type -> Type :=
| Call (c : call) : driverE (resp c).

(** ** The error monad over interaction trees *)

Definition M (A : Type) : Type := itree driverE (exn + A).

Definition ret {A} (a : A) : M A := Ret (inr a).

Definition raise {A} (e : exn) : M A := Ret (inl e).

Definition bind {A B} (m : M A) (k : A -> M B) : M B :=
  ITree.bind m (fun r => match r with
                         | inl e => Ret (inl e)
                         | inr a => k a
                         end).

(** [try: m except Exception as e: h e] *)
Definition try_catch {A} (m : M A) (h : exn -> M A) : M A :=
  ITree.bind m (fun r => match r with
                         | inl e => h e
                         | inr a => Ret (inr a)
                         end).

(** A call that may raise. *)
Definition await (c : call) : itree driverE (resp c) := ITree.trigger (Call c).

(** A call that cannot raise. *)
Definition perform {A} (t : itree driverE A) : M A := ITree.map inr t.

Definition print (m : msg) : M unit := perform (await (Print m)).
Definition sleep (n : nat) : M unit := perform (await (Sleep n)).

(** [while]: the body answers [inl i] to go round again with [i] and
    [inr r] to leave the loop with [r]; an exception leaves it too. *)
Definition while {I R} (body : I -> M (I + R)) : I -> M R :=
  ITree.iter (fun i =>
    ITree.bind (body i) (fun r =>
      match r with
      | inl e => Ret (inr (inl e))
      | inr (inl i') => Ret (inl i')
      | inr (inr x) => Ret (inr (inr x))
      end)).

Declare Scope driver_scope.
Delimit Scope driver_scope with driver.
Notation "x <- m ;; k" := (bind m (fun x => k))
  (at level 61, m at next level, right associativity) : driver_scope.
Notation "m ;; k" := (bind m (fun _ => k))
  (at level 61, right associativity) : driver_scope.
Local Open Scope driver_scope.

(** ** The driver *)

Definition terminal_statuses : list string :=
  ["completed"; "failed"; "timed_out"; "terminated"; "canceled"].

Definition question_statuses : list string :=
  ["awaiting_clarifications"; "collecting_answers"].

Definition exit_words : list string := ["exit"; "quit"; "end"; "done"].

Definition running_states : list string := ["RUNNING"; "CONTINUED_AS_NEW"].

Definition task_queue : string := "openai-agents-task-queue".

Definition no_preference : string := "No specific preference".

(** How a loop body or the inner loop hands control back. *)
Variant flow : Type :=
| Break      (* [break]: leave the polling loop for the result *)
| Return.    (* [return]: leave the function with [None] *)

(** Lines 27-45: look for a run to resume.  Answers the local variables
    [handle] and [start_new] as they stand after the outer [try]. *)
Definition find_existing (client : Client) (workflow_id : string)
  : M (option Handle * bool) :=
  try_catch
    (handle <- await (GetWorkflowHandle client workflow_id) ;;
     print MChecking ;;
     try_catch
       (st <- await (QueryGetStatus handle) ;;
        match st with
        | Some s =>
            if negb (PyStr.mem (status s) terminal_statuses)
            then print MFoundExisting ;; ret (Some handle, false)
            else print MExistingNotRunning ;; ret (Some handle, true)
        | None => print MExistingNotRunning ;; ret (Some handle, true)
        end)
       (fun _ => print MCouldNotQuery ;; ret (Some handle, true)))
    (fun _ => print MNotFound ;; ret (None, true)).

(** Line 49: [f"{workflow_id}-{int(time.time())}"] *)
Definition unique_id (workflow_id : string) (now : Z) : string :=
  workflow_id ++ "-" ++ PyStr.of_int now.

(** Lines 47-61: start a new run under a fresh identifier. *)
Definition start_new_run (client : Client) (workflow_id : string) : M Handle :=
  now <- perform (await Time) ;;
  print (MStartingNew (unique_id workflow_id now)) ;;
  try_catch
    (await (StartWorkflow client (unique_id workflow_id now) task_queue))
    (fun start_error => print (MFailedStart start_error) ;; raise start_error).

(** Lines 27-64. *)
Definition resolve_or_start (client : Client) (workflow_id : string) : M Handle :=
  found <- find_existing client workflow_id ;;
  handle <- (if snd found
             then h <- start_new_run client workflow_id ;; ret (Some h)
             else ret (fst found)) ;;
  match handle with
  | Some h => ret h
  | None => raise "Failed to get workflow handle"
  end.

(** Lines 66-72. *)
Definition ensure_started (handle : Handle) (query : string) : M unit :=
  current_status <- await (QueryGetStatus handle) ;;
  if match current_status with
     | None => true
     | Some s => String.eqb (status s) "pending"
     end
  then print (MInitiating query) ;;
       await (UpdateStartResearch handle query) ;;
       ret tt
  else ret tt.

(** Lines 90-110: one round of the inner loop, entered with the working
    snapshot; [inl] carries the snapshot of the next round. *)
Definition ask_question (handle : Handle) (st : ResearchInteraction)
  : M (ResearchInteraction + option flow) :=
  match get_current_question st with
  | None => ret (inr None)
  | Some current_question =>
      match current_question_index st with
      | None => raise "unsupported operand type(s) for +: 'NoneType' and 'int'"
      | Some i => print (MQuestionOf (i + 1)%Z (question_count st))
      end ;;
      print (MQuestion current_question) ;;
      raw <- await (Input "Your answer: ") ;;
      let answer := PyStr.strip raw in
      if PyStr.mem (PyStr.lower answer) exit_words
      then print MEnding ;;
           await (SignalEndWorkflow handle) ;;
           ret (inr (Some Return))
      else st' <- await (UpdateProvideSingle handle (current_question_index st)
                           (PyStr.or_else answer no_preference)) ;;
           ret (inl st')
  end.

(** Lines 90-110: the inner loop. *)
Definition question_loop (handle : Handle) (st : ResearchInteraction)
  : M (option flow) :=
  while (ask_question handle) st.

(** Lines 77-133: the [try] block of one polling iteration; [inl tt] goes
    round the polling loop again. *)
Definition poll (handle : Handle) : M (unit + flow) :=
  st <- await (QueryGetStatus handle) ;;
  match st with
  | None => sleep 1 ;; ret (inl tt)
  | Some s =>
      if PyStr.mem (status s) question_statuses then
        print MNeedClarifications ;;
        print MDashes ;;
        f <- question_loop handle s ;;
        match f with
        | Some f => ret (inr f)
        | None => ret (inl tt)
        end
      else if String.eqb (status s) "researching" then
        print MResearchInProgress ;;
        print MPlanning ;;
        print MGathering ;;
        print MCompiling ;;
        print MPleaseWait ;;
        ret (inr Break)
      else if String.eqb (status s) "completed" then
        ret (inr Break)
      else if String.eqb (status s) "pending" then
        print MPendingStart ;;
        sleep 2 ;;
        ret (inl tt)
      else
        print (MUnexpected (status s)) ;;
        sleep 2 ;;
        ret (inl tt)
  end.

(** Lines 135-142: the [except Exception as e] clause. *)
Definition on_error (handle : Handle) (e : exn) : M (unit + flow) :=
  print (MError e) ;;
  desc <- await (Describe handle) ;;
  if negb (PyStr.mem desc running_states)
  then print (MTerminated desc) ;; ret (inr Return)
  else sleep 2 ;; ret (inl tt).

(** Lines 75-142: [while True]. *)
Definition interactive_loop (handle : Handle) : M flow :=
  while (fun _ : unit => try_catch (poll handle) (on_error handle)) tt.

(** Lines 144-153. *)
Definition await_final_result (handle : Handle) : M (option string) :=
  result <- await (Result handle) ;;
  print MCompleted ;;
  print MResultHeader ;;
  print MEquals ;;
  print (MResult result) ;;
  ret (Some result).

(** Lines 74-153: poll, then either leave with [None] or fetch the result. *)
Definition drive (handle : Handle) : M (option string) :=
  f <- interactive_loop handle ;;
  match f with
  | Return => ret None
  | Break => await_final_result handle
  end.

Definition run_interactive_research_with_clarifications
  (client : Client) (query workflow_id : string) : M (option string) :=
  print (MStarting query) ;;
  handle <- resolve_or_start client workflow_id ;;
  ensure_started handle query ;;
  drive handle.

Definition run_interactive_research
  (client : Client) (query workflow_id : string) : M (option string) :=
  run_interactive_research_with_clarifications client query workflow_id.


(** ** Clarify mode: [KEY=VALUE] arguments *)

(** A [dict] with [str] keys and values, in insertion order. *)
Definition dict : Type := list (string * string).

(** [d[k] = v]: an existing key keeps its place and takes the new value. *)
Fixpoint dict_set (k v : string) (d : dict) : dict :=
  match d with
  | [] => [(k, v)]
  | (k', v') :: d' =>
      if String.eqb k k' then (k', v) :: d' else (k', v') :: dict_set k v d'
  end.

(** [d.get(k)] *)
Fixpoint dict_get (k : string) (d : dict) : option string :=
  match d with
  | [] => None
  | (k', v') :: d' => if String.eqb k k' then Some v' else dict_get k d'
  end.

(** Lines 202-204: one turn of the [for] loop.  The tuple assignment
    [key, value = ...] raises a [ValueError] when the split does not have
    two parts. *)
Definition parse_step (acc : exn + dict) (arg : string) : exn + dict :=
  match acc with
  | inl e => inl e
  | inr responses =>
      if PyStr.contains_char "=" arg then
        match PyStr.split1 "=" arg with
        | [key; value] => inr (dict_set key value responses)
        | _ => inl "ValueError"
        end
      else inr responses
  end.

(** Lines 198-205. *)
Definition parse_clarifications (clarification_args : list string) : exn + dict :=
  fold_left parse_step clarification_args (inr []).
(** ** Runs of the driver

    An observation pairs a call with the reply it received.  [exec t tr t']
    says that the program [t], fed the replies of [tr], makes exactly the
    calls of [tr], in that order, and is then left to run [t']. *)

Inductive obs : Type :=
| Obs (c : call) (r : resp c).

Definition call_of (o : obs) : call :=
  match o with Obs c _ => c end.

(** The first node of a program: a result, a silent step, or a call with
    what to do with its reply. *)
Variant step (R : Type) : Type :=
| SRet (v : R)
| STau (t : itree driverE R)
| SCall (c : call) (k : resp c -> itree driverE R).
Arguments SRet {R} v.
Arguments STau {R} t.
Arguments SCall {R} c k.

Definition next {R} (t : itree driverE R) : step R :=
  match observe t with
  | RetF v => SRet v
  | TauF t' => STau t'
  | VisF e k =>
      match e in driverE X return (X -> itree driverE R) -> step R with
      | Call c => fun k => SCall c k
      end k
  end.

Inductive exec {R : Type} : itree driverE R -> list obs -> itree driverE R -> Prop :=
| exec_stop t t' :
    next t = next t' -> exec t [] t'
| exec_tau t t1 tr t' :
    next t = STau t1 -> exec t1 tr t' -> exec t tr t'
| exec_call t c k r tr t' :
    next t = SCall c k -> exec (k r) tr t' -> exec t (Obs c r :: tr) t'.

(** ** The vocabulary of traces *)

Local Open Scope list_scope.

Definition calls (tr : list obs) : list call := map call_of tr.

Definition is_start (c : call) : bool :=
  match c with StartWorkflow _ _ _ => true | _ => false end.

Definition is_submit (c : call) : bool :=
  match c with UpdateStartResearch _ _ => true | _ => false end.

(** The [start_workflow] calls of a run. *)
Definition starts (tr : list obs) : list call := filter is_start (calls tr).

(** The [start_research] updates of a run. *)
Definition submissions (tr : list obs) : list call := filter is_submit (calls tr).

(** The replies to [get_workflow_handle], in order. *)
Definition handle_reply (o : obs) : option (exn + Handle) :=
  match o with
  | Obs c r =>
      match c return resp c -> option (exn + Handle) with
      | GetWorkflowHandle _ _ => fun r => Some r
      | _ => fun _ => None
      end r
  end.

(** The replies to the status query, in order. *)
Definition status_reply (o : obs) : option (exn + option ResearchInteraction) :=
  match o with
  | Obs c r =>
      match c return resp c -> option (exn + option ResearchInteraction) with
      | QueryGetStatus _ => fun r => Some r
      | _ => fun _ => None
      end r
  end.

Fixpoint collect {A B} (f : A -> option B) (l : list A) : list B :=
  match l with
  | [] => []
  | a :: l' =>
      match f a with
      | Some b => b :: collect f l'
      | None => collect f l'
      end
  end.

Definition is_raise {A} (r : exn + A) : bool :=
  match r with inl _ => true | inr _ => false end.

(** Handle acquisition fails. *)
Definition lookup_failed (tr : list obs) : bool :=
  existsb is_raise (collect handle_reply tr).

(** The status query fails. *)
Definition query_failed (tr : list obs) : bool :=
  existsb is_raise (collect status_reply tr).

(** The returned status is terminal. *)
Definition status_terminal (tr : list obs) : bool :=
  existsb (fun r => match r with
                    | inr (Some s) => PyStr.mem (status s) terminal_statuses
                    | _ => false
                    end) (collect status_reply tr).

(** The status query succeeds with an absent snapshot. *)
Definition snapshot_absent (tr : list obs) : bool :=
  existsb (fun r => match r with
                    | inr None => true
                    | _ => false
                    end) (collect status_reply tr).

(** The status query answers a snapshot that is absent or still pending:
    the case in which the initial query has to be submitted. *)
Definition wants_submission (r : exn + option ResearchInteraction) : bool :=
  match r with
  | inr None => true
  | inr (Some s) => String.eqb (status s) "pending"
  | inl _ => false
  end.

(** The status query answers a snapshot that is past [pending]. *)
Definition past_pending (r : exn + option ResearchInteraction) : bool :=
  match r with
  | inr (Some s) => negb (String.eqb (status s) "pending")
  | _ => false
  end.

(** [ensure_started] invoked [n] times in a row on the same run. *)
Fixpoint ensure_started_times (n : nat) (handle : Handle) (query : string)
  : M unit :=
  match n with
  | O => ret tt
  | S n' => ensure_started handle query ;; ensure_started_times n' handle query
  end.

(** What one round of the inner loop shows and reads: the two lines of
    the question, and the prompt with its reply. *)
Definition asked (s : ResearchInteraction) (q : string) (i : Z)
  (raw : exn + string) : list obs :=
  [Obs (Print (MQuestionOf (i + 1)%Z (question_count s))) tt;
   Obs (Print (MQuestion q)) tt;
   Obs (Input "Your answer: ") raw].

(** *** The complete runs of the inner loop

    From a working snapshot: the loop is over when there is no current
    question; otherwise the question is shown and an answer read, and the
    round either ends the loop (an exit word, or a call that raises) or
    submits the answer and goes on from the snapshot it is answered. *)
Inductive question_run (h : Handle)
  : ResearchInteraction -> list obs -> exn + option flow -> Prop :=
| question_run_done s :
    get_current_question s = None ->
    question_run h s [] (inr None)
| question_run_input_raises s q i e :
    get_current_question s = Some q ->
    current_question_index s = Some i ->
    question_run h s (asked s q i (inl e)) (inl e)
| question_run_exit s q i raw ack :
    get_current_question s = Some q ->
    current_question_index s = Some i ->
    PyStr.mem (PyStr.lower (PyStr.strip raw)) exit_words = true ->
    question_run h s
      (asked s q i (inr raw) ++
       [Obs (Print MEnding) tt; Obs (SignalEndWorkflow h) ack])
      (match ack with
       | inl e => inl e
       | inr _ => inr (Some Return)
       end)
| question_run_update_raises s q i raw e :
    get_current_question s = Some q ->
    current_question_index s = Some i ->
    PyStr.mem (PyStr.lower (PyStr.strip raw)) exit_words = false ->
    question_run h s
      (asked s q i (inr raw) ++
       [Obs (UpdateProvideSingle h (Some i)
               (PyStr.or_else (PyStr.strip raw) no_preference)) (inl e)])
      (inl e)
| question_run_next s q i raw s' tr v :
    get_current_question s = Some q ->
    current_question_index s = Some i ->
    PyStr.mem (PyStr.lower (PyStr.strip raw)) exit_words = false ->
    question_run h s' tr v ->
    question_run h s
      (asked s q i (inr raw) ++
       Obs (UpdateProvideSingle h (Some i)
              (PyStr.or_else (PyStr.strip raw) no_preference)) (inr s')
       :: tr)
      v.

(** *** The complete runs of [resolve_or_start] *)

(** The lookups after which a new run has to be started. *)
Inductive lookup_run (c : Client) (wid : string) : list obs -> Prop :=
| lookup_not_found e :
    lookup_run c wid
      [Obs (GetWorkflowHandle c wid) (inl e); Obs (Print MNotFound) tt]
| lookup_query_failed h e :
    lookup_run c wid
      [Obs (GetWorkflowHandle c wid) (inr h); Obs (Print MChecking) tt;
       Obs (QueryGetStatus h) (inl e); Obs (Print MCouldNotQuery) tt]
| lookup_absent h :
    lookup_run c wid
      [Obs (GetWorkflowHandle c wid) (inr h); Obs (Print MChecking) tt;
       Obs (QueryGetStatus h) (inr None); Obs (Print MExistingNotRunning) tt]
| lookup_terminal h s :
    PyStr.mem (status s) terminal_statuses = true ->
    lookup_run c wid
      [Obs (GetWorkflowHandle c wid) (inr h); Obs (Print MChecking) tt;
       Obs (QueryGetStatus h) (inr (Some s));
       Obs (Print MExistingNotRunning) tt].

Inductive resolve_run (c : Client) (wid : string)
  : list obs -> exn + Handle -> Prop :=
| resolve_reuse h s :
    PyStr.mem (status s) terminal_statuses = false ->
    resolve_run c wid
      [Obs (GetWorkflowHandle c wid) (inr h); Obs (Print MChecking) tt;
       Obs (QueryGetStatus h) (inr (Some s)); Obs (Print MFoundExisting) tt]
      (inr h)
| resolve_started pre now h :
    lookup_run c wid pre ->
    resolve_run c wid
      (pre ++ [Obs Time now; Obs (Print (MStartingNew (unique_id wid now))) tt;
               Obs (StartWorkflow c (unique_id wid now) task_queue) (inr h)])
      (inr h)
| resolve_start_failed pre now e :
    lookup_run c wid pre ->
    resolve_run c wid
      (pre ++ [Obs Time now; Obs (Print (MStartingNew (unique_id wid now))) tt;
               Obs (StartWorkflow c (unique_id wid now) task_queue) (inl e);
               Obs (Print (MFailedStart e)) tt])
      (inl e).

(** *** Running a program against a script of replies *)

(** The replies an environment can give, by kind. *)
Inductive reply : Type :=
| RHandle (r : exn + Handle)
| RStatus (r : exn + option ResearchInteraction)
| RSnapshot (r : exn + ResearchInteraction)
| RAck (r : exn + unit)
| RText (r : exn + string)
| RClock (now : Z).

(** The reply the script holds for a call: printing and sleeping need
    none, any other call takes the next one if it is of the right kind. *)
Definition answer (c : call) (script : list reply)
  : option (resp c * list reply) :=
  match c return option (resp c * list reply) with
  | GetWorkflowHandle _ _ | StartWorkflow _ _ _ =>
      match script with RHandle r :: s => Some (r, s) | _ => None end
  | QueryGetStatus _ =>
      match script with RStatus r :: s => Some (r, s) | _ => None end
  | UpdateStartResearch _ _ | UpdateProvideSingle _ _ _ =>
      match script with RSnapshot r :: s => Some (r, s) | _ => None end
  | SignalEndWorkflow _ =>
      match script with RAck r :: s => Some (r, s) | _ => None end
  | Describe _ | Result _ | Input _ =>
      match script with RText r :: s => Some (r, s) | _ => None end
  | Time =>
      match script with RClock now :: s => Some (now, s) | _ => None end
  | Sleep _ | Print _ => Some (tt, script)
  end.

(** [run fuel t script]: what [t] observes in at most [fuel] steps, and its
    result if it got that far.  It stops early when the script has no
    fitting reply. *)
Fixpoint run {R} (fuel : nat) (t : itree driverE R) (script : list reply)
  : list obs * option R :=
  match fuel with
  | O => ([], None)
  | S fuel' =>
      match next t with
      | SRet v => ([], Some v)
      | STau t' => run fuel' t' script
      | SCall c k =>
          match answer c script with
          | None => ([], None)
          | Some (r, script') =>
              let (tr, res) := run fuel' (k r) script' in (Obs c r :: tr, res)
          end
      end
  end.

(** ** Clarify mode, in the words of the specification *)

(** The text before the first ["="] and the remainder, for an argument
    that has one. *)
Fixpoint cut (arg : string) : option (string * string) :=
  match arg with
  | EmptyString => None
  | String ch rest =>
      if Ascii.eqb ch "=" then Some (EmptyString, rest)
      else match cut rest with
           | Some (k, v) => Some (String ch k, v)
           | None => None
           end
  end.

(** The value the last argument with key [k] gives. *)
Fixpoint last_value (k : string) (args : list string) : option string :=
  match args with
  | [] => None
  | arg :: rest =>
      match last_value k rest with
      | Some v => Some v
      | None =>
          match cut arg with
          | Some (k', v) => if String.eqb k k' then Some v else None
          | None => None
          end
      end
  end.

(** ** Concrete scenarios *)

Definition failed_snapshot : ResearchInteraction :=
  mkInteraction "failed" None None None.

Definition completed_snapshot : ResearchInteraction :=
  mkInteraction "completed" None None (Some "report").

Definition researching_snapshot : ResearchInteraction :=
  mkInteraction "researching" None None None.

(** The run of the specification's scenario: two questions, the first
    one pending. *)
Definition budget_snapshot (i : Z) : ResearchInteraction :=
  mkInteraction "awaiting_clarifications" (Some ["Budget?"; "Dates?"])
                (Some i) None.

(** A lookup that finds the run and is answered an absent snapshot, and
    the start of a new run that follows it. *)
Definition absent_snapshot_run : list obs :=
  [Obs (GetWorkflowHandle 0 "wf") (inr 5);
   Obs (Print MChecking) tt;
   Obs (QueryGetStatus 5) (inr None);
   Obs (Print MExistingNotRunning) tt;
   Obs Time 1700000000%Z;
   Obs (Print (MStartingNew "wf-1700000000")) tt;
   Obs (StartWorkflow 0 "wf-1700000000" task_queue) (inr 6)].

(** A lookup that finds nothing and a start that fails. *)
Definition failed_start_run : list obs :=
  [Obs (GetWorkflowHandle 0 "wf") (inl "not found");
   Obs (Print MNotFound) tt;
   Obs Time 1700000000%Z;
   Obs (Print (MStartingNew "wf-1700000000")) tt;
   Obs (StartWorkflow 0 "wf-1700000000" task_queue) (inl "unavailable");
   Obs (Print (MFailedStart "unavailable")) tt].

(** ** Further definitions *)

(** Only white space. *)
Fixpoint all_space (s : string) : bool :=
  match s with
  | EmptyString => true
  | String c s' => PyStr.isspace c && all_space s'
  end.

(** [f"{k}={v}"]: an entry as a [KEY=VALUE] argument. *)
Definition as_argument (kv : string * string) : string :=
  (fst kv ++ "=" ++ snd kv)%string.

(** The arguments that have the separator. *)
Definition with_separator (args : list string) : list string :=
  filter (PyStr.contains_char "=") args.

(** The keys the arguments name, in order, with repetitions. *)
Definition keys_of (args : list string) : list string :=
  map fst (collect cut args).

(** Keys in the order they are first seen, each once. *)
Definition see (acc : list string) (k : string) : list string :=
  if PyStr.mem k acc then acc else acc ++ [k].

Definition first_seen (keys : list string) : list string :=
  fold_left see keys [].

(** * The command line

    [get_workflow_status], [send_clarifications] and [main] print lines and
    make calls of their own, beside those of the driver. *)

(** Lines printed by the command-line functions, one constructor per
    [print] call. *)
Inductive line : Type :=
| LStatus (workflow_id st : string)
| LPendingQuestions (n : nat)
| LHasFinalResult
| LNoStatus (workflow_id : string)
| LStatusError (e : exn)
| LSent (workflow_id : string)
| LUpdatedStatus (st : string)
| LSendError (e : exn)
| LConnected
| LConnectFailed (e : exn)
| LConnectHint
| LNewSession (workflow_id : string)
| LBanner
| LRule
| LEmptyQuery.

(** The calls that leave the command line: its own, and the driver's. *)
Inductive cli_call : Type :=
| Connect (target : string)
| UpdateProvideClarifications (h : Handle) (responses : dict)
| Say (l : line)
| Driver (c : call).

Definition cli_resp (c : cli_call) : Type :=
  match c with
  | Connect _ => exn + Client
  | UpdateProvideClarifications _ _ => exn + ResearchInteraction
  | Say _ => unit
  | Driver c => resp c
  end%type.

Variant cliE : Type -> Type :=
| Cli (c : cli_call) : cliE (cli_resp c).

(** The driver's calls, seen from the command line. *)
Definition lift : forall X, driverE X -> cliE X :=
  fun X e => match e in driverE X return cliE X with
             | Call c => Cli (Driver c)
             end.

Definition cli_M (A : Type) : Type := itree cliE (exn + A).

Definition cli_ret {A} (a : A) : cli_M A := Ret (inr a).

Definition cli_raise {A} (e : exn) : cli_M A := Ret (inl e).

Definition cli_bind {A B} (m : cli_M A) (k : A -> cli_M B) : cli_M B :=
  ITree.bind m (fun r => match r with
                         | inl e => Ret (inl e)
                         | inr a => k a
                         end).

Definition cli_try {A} (m : cli_M A) (h : exn -> cli_M A) : cli_M A :=
  ITree.bind m (fun r => match r with
                         | inl e => h e
                         | inr a => Ret (inr a)
                         end).

Definition request (c : cli_call) : itree cliE (cli_resp c) :=
  ITree.trigger (Cli c).

Definition say (l : line) : cli_M unit := ITree.map inr (request (Say l)).

(** [await] of one of the driver's coroutines. *)
Definition within {A} (m : M A) : cli_M A := translate lift m.

Declare Scope cli_scope.
Delimit Scope cli_scope with cli.
Notation "x <- m ;; k" := (cli_bind m (fun x => k))
  (at level 61, m at next level, right associativity) : cli_scope.
Notation "m ;; k" := (cli_bind m (fun _ => k))
  (at level 61, right associativity) : cli_scope.

(** Lines 162-178. *)
Definition get_workflow_status (client : Client) (workflow_id : string)
  : cli_M unit :=
  cli_try
    (handle <- request (Driver (GetWorkflowHandle client workflow_id)) ;;
     st <- request (Driver (QueryGetStatus handle)) ;;
     match st with
     | Some s =>
         say (LStatus workflow_id (status s)) ;;
         match clarification_questions s with
         | Some (q :: qs) => say (LPendingQuestions (length (q :: qs)))
         | _ => cli_ret tt
         end ;;
         match final_result s with
         | Some (String _ _) => say LHasFinalResult
         | _ => cli_ret tt
         end
     | None => say (LNoStatus workflow_id)
     end)%cli
    (fun e => say (LStatusError e)).

(** Lines 181-195. *)
Definition send_clarifications
  (client : Client) (workflow_id : string) (responses : dict) : cli_M unit :=
  cli_try
    (handle <- request (Driver (GetWorkflowHandle client workflow_id)) ;;
     result <- request (UpdateProvideClarifications handle responses) ;;
     say (LSent workflow_id) ;;
     say (LUpdatedStatus (status result)))%cli
    (fun e => say (LSendError e)).

(** What [parser.parse_args()] hands to [main]. *)
Record Args := mkArgs {
  args_query : option string;
  args_workflow_id : string;
  args_new_session : bool;
  args_status : bool;
  args_clarify : option (list string)
}.

Definition server : string := "localhost:7233".

(** Lines 236-245: [None] stands for the early [return]. *)
Definition connect : cli_M (option Client) :=
  cli_try
    (client <- request (Connect server) ;;
     say LConnected ;;
     cli_ret (Some client))%cli
    (fun e => say (LConnectFailed e) ;;
              say LConnectHint ;;
              cli_ret None)%cli.

(** Lines 256-264. *)
Definition query_mode (client : Client) (args : Args) (query : string)
  : cli_M unit :=
  (workflow_id <-
     (if args_new_session args
      then now <- ITree.map inr (request (Driver Time)) ;;
           say (LNewSession (unique_id (args_workflow_id args) now)) ;;
           cli_ret (unique_id (args_workflow_id args) now)
      else cli_ret (args_workflow_id args)) ;;
   within (run_interactive_research client query workflow_id) ;;
   cli_ret tt)%cli.

(** Lines 267-276. *)
Definition prompt_mode (client : Client) (args : Args) : cli_M unit :=
  (say LBanner ;;
   say LRule ;;
   raw <- request (Driver (Input "Enter your research query: ")) ;;
   match PyStr.strip raw with
   | EmptyString => say LEmptyQuery ;; cli_ret tt
   | query =>
       within (run_interactive_research client query (args_workflow_id args)) ;;
       cli_ret tt
   end)%cli.

(** Python's truth value of an optional list and of an optional string:
    [None] and the empty value count as false. *)
Definition truthy_list {A} (o : option (list A)) : bool :=
  match o with Some (_ :: _) => true | _ => false end.

Definition truthy_string (o : option string) : bool :=
  match o with Some (String _ _) => true | _ => false end.

(** Lines 247-276: the modes, in the order of the [if] chain. *)
Definition dispatch (client : Client) (args : Args) : cli_M unit :=
  if args_status args then
    get_workflow_status client (args_workflow_id args)
  else if truthy_list (args_clarify args) then
    (responses <- Ret (parse_clarifications
                         (match args_clarify args with
                          | Some l => l
                          | None => []
                          end)) ;;
     send_clarifications client (args_workflow_id args) responses)%cli
  else if truthy_string (args_query args) then
    query_mode client args
      (match args_query args with Some q => q | None => EmptyString end)
  else
    prompt_mode client args.

(** Lines 208-276, from the parsed arguments on. *)
Definition main (args : Args) : cli_M unit :=
  (connected <- connect ;;
   match connected with
   | None => cli_ret tt
   | Some client => dispatch client args
   end)%cli.

(** ** Runs of the command line *)

Inductive cli_obs : Type :=
| CObs (c : cli_call) (r : cli_resp c).

Definition cli_call_of (o : cli_obs) : cli_call :=
  match o with CObs c _ => c end.

Definition cli_calls (tr : list cli_obs) : list cli_call := map cli_call_of tr.

Definition lift_obs (o : obs) : cli_obs :=
  match o with Obs c r => CObs (Driver c) r end.

Variant cli_step (R : Type) : Type :=
| CRet (v : R)
| CTau (t : itree cliE R)
| CCall (c : cli_call) (k : cli_resp c -> itree cliE R).
Arguments CRet {R} v.
Arguments CTau {R} t.
Arguments CCall {R} c k.

Definition cli_next {R} (t : itree cliE R) : cli_step R :=
  match observe t with
  | RetF v => CRet v
  | TauF t' => CTau t'
  | VisF e k =>
      match e in cliE X return (X -> itree cliE R) -> cli_step R with
      | Cli c => fun k => CCall c k
      end k
  end.

Inductive cli_exec {R : Type}
  : itree cliE R -> list cli_obs -> itree cliE R -> Prop :=
| cli_exec_stop t t' :
    cli_next t = cli_next t' -> cli_exec t [] t'
| cli_exec_tau t t1 tr t' :
    cli_next t = CTau t1 -> cli_exec t1 tr t' -> cli_exec t tr t'
| cli_exec_call t c k r tr t' :
    cli_next t = CCall c k -> cli_exec (k r) tr t' ->
    cli_exec t (CObs c r :: tr) t'.

(** Calls that change nothing in the engine and ask the user nothing. *)
Definition read_only (c : cli_call) : bool :=
  match c with
  | Connect _ | Say _ => true
  | UpdateProvideClarifications _ _ => false
  | Driver (GetWorkflowHandle _ _) | Driver (QueryGetStatus _) => true
  | Driver _ => false
  end.

(** The lines [get_workflow_status] prints for a snapshot. *)
Definition status_lines (workflow_id : string) (s : ResearchInteraction)
  : list line :=
  [LStatus workflow_id (status s)]
  ++ match clarification_questions s with
     | Some (q :: qs) => [LPendingQuestions (length (q :: qs))]
     | _ => []
     end
  ++ match final_result s with
     | Some (String _ _) => [LHasFinalResult]
     | _ => []
     end.

Definition said (l : line) : cli_obs := CObs (Say l) tt.

(** The complete runs of [get_workflow_status]. *)
Inductive status_run (c : Client) (wid : string) : list cli_obs -> Prop :=
| status_no_handle e :
    status_run c wid
      [CObs (Driver (GetWorkflowHandle c wid)) (inl e); said (LStatusError e)]
| status_query_failed h e :
    status_run c wid
      [CObs (Driver (GetWorkflowHandle c wid)) (inr h);
       CObs (Driver (QueryGetStatus h)) (inl e); said (LStatusError e)]
| status_absent h :
    status_run c wid
      [CObs (Driver (GetWorkflowHandle c wid)) (inr h);
       CObs (Driver (QueryGetStatus h)) (inr None); said (LNoStatus wid)]
| status_shown h s :
    status_run c wid
      ([CObs (Driver (GetWorkflowHandle c wid)) (inr h);
        CObs (Driver (QueryGetStatus h)) (inr (Some s))]
       ++ map said (status_lines wid s)).

(** The complete runs of [send_clarifications]. *)
Inductive send_run (c : Client) (wid : string) (d : dict)
  : list cli_obs -> Prop :=
| send_no_handle e :
    send_run c wid d
      [CObs (Driver (GetWorkflowHandle c wid)) (inl e); said (LSendError e)]
| send_failed h e :
    send_run c wid d
      [CObs (Driver (GetWorkflowHandle c wid)) (inr h);
       CObs (UpdateProvideClarifications h d) (inl e); said (LSendError e)]
| send_done h s :
    send_run c wid d
      [CObs (Driver (GetWorkflowHandle c wid)) (inr h);
       CObs (UpdateProvideClarifications h d) (inr s);
       said (LSent wid); said (LUpdatedStatus (status s))].

(** What [main] makes of the driver's outcome: the value is dropped, an
    exception goes on. *)
Definition discard {A} (r : exn + A) : exn + unit :=
  match r with
  | inl e => inl e
  | inr _ => inr tt
  end.

(** Lines 257-262: what query mode does before the driver runs, and the
    identifier it hands to it. *)
Inductive session (args : Args) : list cli_obs -> string -> Prop :=
| session_same :
    args_new_session args = false ->
    session args [] (args_workflow_id args)
| session_new now :
    args_new_session args = true ->
    session args
      [CObs (Driver Time) now;
       said (LNewSession (unique_id (args_workflow_id args) now))]
      (unique_id (args_workflow_id args) now).

(** The complete runs of the prompt mode, after the banner. *)
Definition prompt_outcome (c : Client) (args : Args)
  (r : exn + string) (rest : list cli_obs) (v : exn + unit) : Prop :=
  match r with
  | inl e => rest = [] /\ v = inl e
  | inr raw =>
      if all_space raw
      then rest = [said LEmptyQuery] /\ v = inr tt
      else exists tr0 v0,
          rest = map lift_obs tr0
          /\ exec (run_interactive_research_with_clarifications
                     c (PyStr.strip raw) (args_workflow_id args))
                  tr0 (Ret v0)
          /\ v = discard v0
  end.

(** ** What a program may call *)

(** [only P t]: every call of every run of [t], finished or not,
    satisfies [P]. *)
Definition only {R} (P : call -> bool) (t : itree driverE R) : Prop :=
  forall tr t', exec t tr t' -> forallb P (calls tr) = true.

(** The calls left to the driver once it holds [h] and the research was
    started: the terminal, sleeping, and the engine about [h] alone;
    never the clock, a look-up or a start of a workflow, nor the query
    again. *)
Definition after_start (h : Handle) (c : call) : bool :=
  match c with
  | GetWorkflowHandle _ _ | StartWorkflow _ _ _ | UpdateStartResearch _ _ =>
      false
  | QueryGetStatus h' | UpdateProvideSingle h' _ _ | SignalEndWorkflow h'
  | Describe h' | Result h' => Nat.eqb h' h
  | Time => false
  | Sleep _ | Input _ | Print _ => true
  end.

(** A whole run of the driver: the run found has no snapshot, a new one
    is started and handed the query, its first snapshot says [completed],
    and fetching the result fails. *)
Definition restarted_run : list obs :=
  Obs (Print (MStarting "surfing")) tt
  :: absent_snapshot_run
  ++ [Obs (QueryGetStatus 6) (inr None);
      Obs (Print (MInitiating "surfing")) tt;
      Obs (UpdateStartResearch 6 "surfing") (inr researching_snapshot);
      Obs (QueryGetStatus 6) (inr (Some completed_snapshot));
      Obs (Result 6) (inl "workflow failed")].

(** ** An exit word whose signal fails *)

Definition is_signal (c : call) : bool :=
  match c with SignalEndWorkflow _ => true | _ => false end.

Definition is_status_query (c : call) : bool :=
  match c with QueryGetStatus _ => true | _ => false end.

(** The termination signals of a run. *)
Definition signals (tr : list obs) : list call := filter is_signal (calls tr).

(** The first question is shown and answered ["quit"]. *)
Definition quit_round : list obs :=
  [Obs (QueryGetStatus 5) (inr (Some (budget_snapshot 0)));
   Obs (Print MNeedClarifications) tt;
   Obs (Print MDashes) tt;
   Obs (Print (MQuestionOf 1 2)) tt;
   Obs (Print (MQuestion "Budget?")) tt;
   Obs (Input "Your answer: ") (inr "quit")].

(** What follows the answer when the signal raises and the engine says
    the run is still running: the error is printed, the driver sleeps,
    polls again, asks again, and this time the signal goes through. *)
Definition after_failed_signal : list obs :=
  [Obs (Print MEnding) tt;
   Obs (SignalEndWorkflow 5) (inl "unavailable");
   Obs (Print (MError "unavailable")) tt;
   Obs (Describe 5) (inr "RUNNING");
   Obs (Sleep 2) tt]
  ++ quit_round
  ++ [Obs (Print MEnding) tt;
      Obs (SignalEndWorkflow 5) (inr tt)].
(* The helpers below stay folded while a tree is being run, so that what
   is known about them can be rewritten in. *)
Arguments PyStr.mem : simpl never.
Arguments PyStr.strip : simpl never.
Arguments PyStr.lower : simpl never.
Arguments PyStr.of_int : simpl never.
Arguments get_current_question : simpl never.
Arguments question_count : simpl never.
Arguments unique_id : simpl never.

Section ExecFacts.

Context {R : Type}.
Implicit Types t : itree driverE R.

Lemma exec_refl t : exec t [] t.
Proof. now apply exec_stop. Qed.

Lemma exec_next_l t1 t2 tr t' :
  next t1 = next t2 -> exec t1 tr t' -> exec t2 tr t'.
Proof.
  intros E H. destruct H.
  - apply exec_stop. congruence.
  - eapply exec_tau; [|eassumption]. congruence.
  - eapply exec_call; [|eassumption]. congruence.
Qed.

Lemma exec_next_r t tr t1 t2 :
  next t1 = next t2 -> exec t tr t1 -> exec t tr t2.
Proof.
  intros E H. induction H.
  - apply exec_stop. congruence.
  - eapply exec_tau; eauto.
  - eapply exec_call; eauto.
Qed.

Lemma exec_trans t1 t2 t3 tr1 tr2 :
  exec t1 tr1 t2 -> exec t2 tr2 t3 -> exec t1 (tr1 ++ tr2) t3.
Proof.
  intros H12 H23. induction H12; simpl.
  - eapply exec_next_l; [symmetry|]; eassumption.
  - eapply exec_tau; eauto.
  - eapply exec_call; eauto.
Qed.

Lemma exec_tau_r t t1 t2 tr :
  exec t tr t1 -> next t1 = STau t2 -> exec t tr t2.
Proof.
  intros H E. induction H.
  - eapply exec_tau; [|apply exec_refl]. congruence.
  - eapply exec_tau; eauto.
  - eapply exec_call; eauto.
Qed.

Lemma scall_inj c (k1 k2 : resp c -> itree driverE R) :
  SCall c k1 = SCall c k2 -> k1 = k2.
Proof.
  intros H. inversion H as [Hk].
  now apply Eqdep.EqdepTheory.inj_pair2 in Hk.
Qed.

(** Inversion of a run to completion, by the shape of the first node. *)

Lemma exec_ret_inv t tr x v :
  next t = SRet x -> exec t tr (Ret v) -> tr = [] /\ x = v.
Proof.
  intros E H. inversion H; subst; try congruence.
  split; [reflexivity|]. cbn in *. congruence.
Qed.

Lemma exec_tau_inv t tr t1 v :
  next t = STau t1 -> exec t tr (Ret v) -> exec t1 tr (Ret v).
Proof.
  intros E H. inversion H; subst; cbn in *; try congruence.
Qed.

Lemma exec_call_inv t tr c k v :
  next t = SCall c k -> exec t tr (Ret v) ->
  exists r tr', tr = Obs c r :: tr' /\ exec (k r) tr' (Ret v).
Proof.
  intros E H. inversion H; subst; cbn in *; try congruence.
  rewrite E in H0. assert (c0 = c) by congruence. subst c0.
  apply scall_inj in H0. subst k0. eauto.
Qed.

(** The three inversions at once, the case being found by computing
    [next t]. *)
Lemma exec_inv t tr v :
  exec t tr (Ret v) ->
  match next t with
  | SRet x => tr = [] /\ x = v
  | STau t1 => exec t1 tr (Ret v)
  | SCall c k => exists r tr', tr = Obs c r :: tr' /\ exec (k r) tr' (Ret v)
  end.
Proof.
  intros H. destruct (next t) eqn:E.
  - eapply exec_ret_inv; eassumption.
  - eapply exec_tau_inv; eassumption.
  - eapply exec_call_inv; eassumption.
Qed.

End ExecFacts.

(** The next call of a program is its own: two runs of one program start
    with the same call, whatever the replies. *)
Lemma exec_first_call {R} (t : itree driverE R) c1 r1 tr1 t1 c2 r2 tr2 t2 :
  exec t (Obs c1 r1 :: tr1) t1 -> exec t (Obs c2 r2 :: tr2) t2 -> c1 = c2.
Proof.
  intros H1. remember (Obs c1 r1 :: tr1) as l1 eqn:E1.
  revert c2 r2 tr2 t2.
  induction H1 as [t t' E|t ta tr t' Et H1 IH|t c k r tr t' Ec H1 IH];
    intros c2 r2 tr2 t2 H2.
  - discriminate.
  - inversion H2 as [|? tb ? ? Et2 H2'|? ? ? ? ? ? Ec2 H2']; subst.
    + rewrite Et in Et2. injection Et2 as <-. eapply IH; eauto.
    + congruence.
  - assert (c = c1) as ->.
    { apply (f_equal (fun l => option_map call_of (hd_error l))) in E1.
      simpl in E1. congruence. }
    clear E1.
    inversion H2 as [|? tb ? ? Et2 H2'|? ? ? ? ? ? Ec2 H2']; subst.
    + congruence.
    + rewrite Ec in Ec2. now inversion Ec2.
Qed.

Lemma obs_inj c (r1 r2 : resp c) : Obs c r1 = Obs c r2 -> r1 = r2.
Proof.
  intros H. inversion H as [Hr]. now apply Eqdep.EqdepTheory.inj_pair2 in Hr.
Qed.

Lemma obs_cons_inj c (r1 r2 : resp c) (tr1 tr2 : list obs) :
  Obs c r1 :: tr1 = Obs c r2 :: tr2 -> r1 = r2 /\ tr1 = tr2.
Proof.
  intros H. injection H as H1 H2. split; [|assumption].
  now apply Eqdep.EqdepTheory.inj_pair2 in H1.
Qed.

(** *** Runs through [ITree.bind] *)

Section Compose.

Context {A B : Type}.

Lemma next_bind (m : itree driverE A) (k : A -> itree driverE B) :
  next (ITree.bind m k) =
  match next m with
  | SRet a => next (k a)
  | STau m' => STau (ITree.bind m' k)
  | SCall c km => SCall c (fun r => ITree.bind (km r) k)
  end.
Proof.
  unfold next. rewrite observe_bind.
  destruct (observe m) as [a|m'|X e km]; try reflexivity.
  destruct e. reflexivity.
Qed.

Lemma next_subst (m : itree driverE A) (k : A -> itree driverE B) :
  next (ITree.subst k m) =
  match next m with
  | SRet a => next (k a)
  | STau m' => STau (ITree.bind m' k)
  | SCall c km => SCall c (fun r => ITree.bind (km r) k)
  end.
Proof. apply next_bind. Qed.

Lemma exec_subst (m m' : itree driverE A) (k : A -> itree driverE B) tr :
  exec m tr m' -> exec (ITree.bind m k) tr (ITree.bind m' k).
Proof.
  induction 1.
  - apply exec_stop. rewrite !next_bind. now rewrite H.
  - eapply exec_tau; [|eassumption]. rewrite next_bind, H. reflexivity.
  - eapply exec_call; [rewrite next_bind, H; reflexivity|]. exact IHexec.
Qed.

(** A run of [ITree.bind m k] to completion splits into a run of [m] to
    completion and a run of the continuation. *)
Lemma exec_subst_inv (k : A -> itree driverE B) t tr v :
  exec t tr (Ret v) ->
  forall m, next t = next (ITree.bind m k) ->
  exists x tr1 tr2,
    tr = (tr1 ++ tr2)%list /\ exec m tr1 (Ret x) /\ exec (k x) tr2 (Ret v).
Proof.
  intros H. remember (Ret v) as t' eqn:Et'. induction H; intros m Em; subst t'.
  - rewrite next_bind in Em. destruct (next m) as [a|m'|c km] eqn:Om.
    + exists a, [], []. repeat split.
      * apply exec_stop. exact Om.
      * apply exec_stop. congruence.
    + rewrite H in Em. cbn in Em. congruence.
    + rewrite H in Em. cbn in Em. congruence.
  - rewrite next_bind in Em. destruct (next m) as [a|m'|c km] eqn:Om.
    + exists a, [], tr. repeat split.
      * apply exec_stop. exact Om.
      * eapply exec_tau; [|eassumption]. congruence.
    + rewrite H in Em. injection Em as ->.
      destruct (IHexec eq_refl m' eq_refl) as (x & tr1 & tr2 & -> & H1 & H2).
      exists x, tr1, tr2. repeat split; auto. eapply exec_tau; eauto.
    + congruence.
  - rewrite next_bind in Em. destruct (next m) as [a|m'|c' km] eqn:Om.
    + exists a, [], (Obs c r :: tr). repeat split.
      * apply exec_stop. exact Om.
      * eapply exec_call; [|eassumption]. congruence.
    + congruence.
    + rewrite H in Em. assert (c = c') by congruence. subst c'.
      apply scall_inj in Em. subst k0.
      destruct (IHexec eq_refl (km r) eq_refl) as (x & tr1 & tr2 & -> & H1 & H2).
      exists x, (Obs c r :: tr1), tr2. repeat split; auto.
      eapply exec_call; eauto.
Qed.

End Compose.

(** *** Runs through the error monad *)

Section Monadic.

Context {A B : Type}.

Lemma exec_bind_ok (m : M A) (k : A -> M B) tr a tr' t' :
  exec m tr (ret a) -> exec (k a) tr' t' -> exec (bind m k) (tr ++ tr')%list t'.
Proof.
  intros Hm Hk. unfold bind. eapply exec_trans; [|exact Hk].
  eapply exec_next_r; [|apply exec_subst; exact Hm]. reflexivity.
Qed.

Lemma exec_bind_raise (m : M A) (k : A -> M B) tr e :
  exec m tr (raise e) -> exec (bind m k) tr (raise e).
Proof.
  intros Hm. unfold bind.
  eapply exec_next_r; [|apply exec_subst; exact Hm]. reflexivity.
Qed.

Lemma exec_bind_inv (m : M A) (k : A -> M B) tr v :
  exec (bind m k) tr (Ret v) ->
  (exists e, exec m tr (raise e) /\ v = inl e) \/
  (exists a tr1 tr2,
      tr = (tr1 ++ tr2)%list /\ exec m tr1 (ret a) /\ exec (k a) tr2 (Ret v)).
Proof.
  intros H.
  destruct (exec_subst_inv _ _ _ _ H m eq_refl) as (x & tr1 & tr2 & -> & H1 & H2).
  destruct x as [e|a].
  - left. exists e. apply exec_ret_inv with (x := inl e) in H2; [|reflexivity].
    destruct H2 as [-> <-]. rewrite app_nil_r. split; [exact H1|reflexivity].
  - right. exists a, tr1, tr2. repeat split; assumption.
Qed.

End Monadic.

Section Control.

Context {A : Type}.

Lemma exec_try_ok (m : M A) (h : exn -> M A) tr a :
  exec m tr (ret a) -> exec (try_catch m h) tr (ret a).
Proof.
  intros Hm. unfold try_catch.
  eapply exec_next_r; [|apply exec_subst; exact Hm]. reflexivity.
Qed.

Lemma exec_try_caught (m : M A) (h : exn -> M A) tr e tr' t' :
  exec m tr (raise e) -> exec (h e) tr' t' ->
  exec (try_catch m h) (tr ++ tr')%list t'.
Proof.
  intros Hm Hh. unfold try_catch. eapply exec_trans; [|exact Hh].
  eapply exec_next_r; [|apply exec_subst; exact Hm]. reflexivity.
Qed.

Context {I : Type}.

Lemma next_iter {R} (f : I -> itree driverE (I + R)) i :
  next (ITree.bind (f i) (fun lr =>
          match lr with
          | inl l => Tau (ITree.iter f l)
          | inr r => Ret r
          end)) = next (ITree.iter f i).
Proof. reflexivity. Qed.

Lemma exec_while_again (body : I -> M (I + A)) i tr i' :
  exec (body i) tr (ret (inl i')) -> exec (while body i) tr (while body i').
Proof.
  intros Hb. unfold while. eapply exec_tau_r.
  - eapply exec_next_l;
      [apply next_iter|].
    cbv beta. apply exec_subst, exec_subst. exact Hb.
  - reflexivity.
Qed.

Lemma exec_while_done (body : I -> M (I + A)) i tr x :
  exec (body i) tr (ret (inr x)) -> exec (while body i) tr (ret x).
Proof.
  intros Hb. unfold while. eapply exec_next_r.
  2:{ eapply exec_next_l;
        [apply next_iter|].
      cbv beta. apply exec_subst, exec_subst. exact Hb. }
  reflexivity.
Qed.

Lemma exec_while_raise (body : I -> M (I + A)) i tr e :
  exec (body i) tr (raise e) -> exec (while body i) tr (raise e).
Proof.
  intros Hb. unfold while. eapply exec_next_r.
  2:{ eapply exec_next_l;
        [apply next_iter|].
      cbv beta. apply exec_subst, exec_subst. exact Hb. }
  reflexivity.
Qed.

End Control.

(** One step of a run whose next node is found by computation; the
    [using] variants rewrite with a fact about the data on the way. *)
Tactic Notation "run_call" :=
  eapply exec_call; [cbn; reflexivity|]; cbn.
Tactic Notation "run_tau" :=
  eapply exec_tau; [cbn; reflexivity|]; cbn.
Tactic Notation "run_stop" :=
  apply exec_stop; cbn; reflexivity.
Tactic Notation "run_call" "using" constr(E) :=
  eapply exec_call;
  [repeat rewrite next_subst; cbn; rewrite E; cbn; reflexivity|]; cbn.
Tactic Notation "run_stop" "using" constr(E) :=
  apply exec_stop; repeat rewrite next_subst; cbn; rewrite E; cbn; reflexivity.

(** One step back from a run to completion: [inv_call H as r] names the
    reply [r] of the call the program was waiting on. *)
Tactic Notation "inv_run" hyp(H) :=
  apply exec_inv in H; cbn in H.
Tactic Notation "inv_run" hyp(H) "using" constr(E) :=
  apply exec_inv in H; repeat rewrite next_subst in H; cbn in H;
  rewrite E in H; cbn in H.
Ltac inv_reply H pat :=
  let r := fresh "r" in
  let E := fresh "E" in
  destruct H as (r & ? & E & H); cbn in r;
  revert r E H; intros pat E H;
  match type of E with ?tr = _ => subst tr end; cbn in H.
Tactic Notation "inv_call" hyp(H) "as" simple_intropattern(pat) :=
  inv_run H; inv_reply H pat.
Tactic Notation "inv_call" hyp(H) "using" constr(E) "as" simple_intropattern(pat) :=
  inv_run H using E; inv_reply H pat.
Ltac inv_unit H := inv_call H as [].
Ltac inv_end H := inv_run H; destruct H as [-> <-].

(** *** Runs of single calls *)

Lemma exec_await c r : exec (await c) [Obs c r] (Ret r).
Proof. run_call. run_stop. Qed.

Lemma exec_print m : exec (print m) [Obs (Print m) tt] (ret tt).
Proof. run_call. run_stop. Qed.

Lemma exec_sleep n : exec (sleep n) [Obs (Sleep n) tt] (ret tt).
Proof. run_call. run_stop. Qed.


(** *** The interpreter observes runs *)

Lemma run_sound {R} fuel (t : itree driverE R) script tr v :
  run fuel t script = (tr, Some v) -> exec t tr (Ret v).
Proof.
  revert t script tr. induction fuel as [|fuel IH]; intros t script tr; simpl.
  - discriminate.
  - destruct (next t) as [x|t'|c k] eqn:E.
    + intros [= <- <-]. now apply exec_stop.
    + intros H. eapply exec_tau; eauto.
    + destruct (answer c script) as [[r script']|]; [|discriminate].
      destruct (run fuel (k r) script') as [tr' res] eqn:Hrun.
      intros [= <- ->]. eapply exec_call; eauto.
Qed.

(** *** The complete runs of [resolve_or_start] *)

Ltac start_tail H :=
  let reply := fresh "reply" in
  inv_call H as ?; inv_unit H; inv_call H as reply;
  destruct reply;
  [ inv_unit H; inv_end H;
    first [ apply (resolve_start_failed _ _ [_; _])
          | apply (resolve_start_failed _ _ [_; _; _; _]) ]
  | inv_end H;
    first [ apply (resolve_started _ _ [_; _])
          | apply (resolve_started _ _ [_; _; _; _]) ] ].

Lemma resolve_or_start_runs c wid tr v :
  exec (resolve_or_start c wid) tr (Ret v) -> resolve_run c wid tr v.
Proof.
  intros H. unfold resolve_or_start in H.
  inv_call H as [e|h].
  - inv_unit H. start_tail H; constructor.
  - inv_unit H. inv_call H as [e|[s|]].
    + inv_unit H. start_tail H; constructor.
    + destruct (PyStr.mem (status s) terminal_statuses) eqn:Hs.
      * inv_call H using Hs as []. start_tail H; now constructor.
      * inv_call H using Hs as []. inv_end H. now constructor.
    + inv_unit H. start_tail H; constructor.
Qed.

Lemma resolve_run_exec c wid tr v :
  resolve_run c wid tr v -> exec (resolve_or_start c wid) tr (Ret v).
Proof.
  intros H. destruct H as [h s Hs|pre now h Hpre|pre now e Hpre].
  - run_call. run_call. run_call. run_call using Hs. run_stop.
  - destruct Hpre as [e'|h' e'|h'|h' s Hs]; cbn.
    + repeat run_call. run_stop.
    + repeat run_call. run_stop.
    + repeat run_call. run_stop.
    + run_call. run_call. run_call. run_call using Hs. repeat run_call.
      run_stop.
  - destruct Hpre as [e'|h' e'|h'|h' s Hs]; cbn.
    + repeat run_call. run_stop.
    + repeat run_call. run_stop.
    + repeat run_call. run_stop.
    + run_call. run_call. run_call. run_call using Hs. repeat run_call.
      run_stop.
Qed.

(** *** Runs of the two loops *)

Lemma obs_call_eq c1 c2 (r1 : resp c1) (r2 : resp c2) :
  Obs c1 r1 = Obs c2 r2 -> c1 = c2.
Proof. intros H. exact (f_equal call_of H). Qed.

Section Loops.

Variable h : Handle.

Lemma question_loop_done s :
  get_current_question s = None -> exec (question_loop h s) [] (ret None).
Proof.
  intros Hq. apply exec_while_done. unfold ask_question. rewrite Hq.
  apply exec_refl.
Qed.

Section Round.

Variables (s : ResearchInteraction) (q : string) (i : Z) (raw : string).
Hypothesis Hq : get_current_question s = Some q.
Hypothesis Hi : current_question_index s = Some i.

Lemma ask_question_exit ack :
  PyStr.mem (PyStr.lower (PyStr.strip raw)) exit_words = true ->
  exec (ask_question h s)
       (asked s q i (inr raw) ++
        [Obs (Print MEnding) tt; Obs (SignalEndWorkflow h) ack])
       (match ack with
        | inl e => raise e
        | inr _ => ret (inr (Some Return))
        end).
Proof.
  intros Hx. unfold ask_question. rewrite Hq, Hi.
  eapply (exec_bind_ok _ _ [_]); [apply exec_print|].
  eapply (exec_bind_ok _ _ [_]);
    [apply exec_print|].
  eapply (exec_bind_ok _ _ [_]);
    [apply (exec_await (Input _) (inr raw))|].
  cbv zeta. rewrite Hx.
  eapply (exec_bind_ok _ _ [_]); [apply exec_print|].
  destruct ack as [e|[]].
  - apply exec_bind_raise.
    apply (exec_await (SignalEndWorkflow h) (inl e)).
  - eapply (exec_bind_ok _ _ [_] _ []);
      [apply (exec_await (SignalEndWorkflow h) (inr tt))|].
    apply exec_refl.
Qed.

Lemma ask_question_input_raises e :
  exec (ask_question h s) (asked s q i (inl e)) (raise e).
Proof.
  unfold ask_question. rewrite Hq, Hi.
  eapply (exec_bind_ok _ _ [_]); [apply exec_print|].
  eapply (exec_bind_ok _ _ [_]); [apply exec_print|].
  apply exec_bind_raise. apply (exec_await (Input _) (inl e)).
Qed.

Lemma ask_question_update reply :
  PyStr.mem (PyStr.lower (PyStr.strip raw)) exit_words = false ->
  exec (ask_question h s)
       (asked s q i (inr raw) ++
        [Obs (UpdateProvideSingle h (Some i)
                (PyStr.or_else (PyStr.strip raw) no_preference)) reply])
       (match reply with
        | inl e => raise e
        | inr s' => ret (inl s')
        end).
Proof.
  intros Hx. unfold ask_question. rewrite Hq, Hi.
  eapply (exec_bind_ok _ _ [_]); [apply exec_print|].
  eapply (exec_bind_ok _ _ [_]); [apply exec_print|].
  eapply (exec_bind_ok _ _ [_]);
    [apply (exec_await (Input _) (inr raw))|].
  cbv zeta. rewrite Hx. destruct reply as [e|s'].
  - apply exec_bind_raise.
    apply (exec_await (UpdateProvideSingle h _ _) (inl e)).
  - eapply (exec_bind_ok _ _ [_] _ []);
      [apply (exec_await (UpdateProvideSingle h _ _) (inr s'))|].
    apply exec_refl.
Qed.

End Round.

(** A round that submits an answer leads to the next round. *)
Lemma question_loop_next s q i raw s' :
  get_current_question s = Some q ->
  current_question_index s = Some i ->
  PyStr.mem (PyStr.lower (PyStr.strip raw)) exit_words = false ->
  exec (question_loop h s)
       (asked s q i (inr raw) ++
        [Obs (UpdateProvideSingle h (Some i)
                (PyStr.or_else (PyStr.strip raw) no_preference)) (inr s')])
       (question_loop h s').
Proof.
  intros Hq Hi Hx. apply exec_while_again.
  apply (ask_question_update s q i raw Hq Hi (inr s') Hx).
Qed.

(** A complete run of the inner loop, seen from the polling iteration
    that entered it. *)
Lemma poll_questions s0 tr r :
  PyStr.mem (status s0) question_statuses = true ->
  exec (question_loop h s0) tr (Ret r) ->
  exec (poll h)
       (Obs (QueryGetStatus h) (inr (Some s0))
        :: Obs (Print MNeedClarifications) tt
        :: Obs (Print MDashes) tt :: tr)
       (match r with
        | inl e => raise e
        | inr (Some f) => ret (inr f)
        | inr None => ret (inl tt)
        end).
Proof.
  intros Hs Hloop. unfold poll.
  eapply (exec_bind_ok _ _ [_]);
    [apply (exec_await (QueryGetStatus h) (inr (Some s0)))|].
  cbv beta iota. rewrite Hs.
  eapply (exec_bind_ok _ _ [_]); [apply exec_print|].
  eapply (exec_bind_ok _ _ [_]); [apply exec_print|].
  destruct r as [e|f].
  - apply exec_bind_raise. exact Hloop.
  - rewrite <- (app_nil_r tr). eapply exec_bind_ok; [exact Hloop|].
    destruct f; apply exec_refl.
Qed.

(** What the [except] clause does once the engine has described the run. *)
Lemma on_error_run e d :
  exec (on_error h e)
       ([Obs (Print (MError e)) tt; Obs (Describe h) (inr d)] ++
        if PyStr.mem d running_states
        then [Obs (Sleep 2) tt]
        else [Obs (Print (MTerminated d)) tt])
       (if PyStr.mem d running_states then ret (inl tt) else ret (inr Return)).
Proof.
  unfold on_error.
  eapply (exec_bind_ok _ _ [_]); [apply exec_print|].
  eapply (exec_bind_ok _ _ [_]); [apply (exec_await (Describe h) (inr d))|].
  cbv beta. destruct (PyStr.mem d running_states); cbn [negb].
  - eapply (exec_bind_ok _ _ [_] _ []); [apply exec_sleep|]. apply exec_refl.
  - eapply (exec_bind_ok _ _ [_] _ []); [apply exec_print|]. apply exec_refl.
Qed.

(** One iteration of the polling loop, by how its [try] block ends. *)

Lemma loop_again tr :
  exec (poll h) tr (ret (inl tt)) ->
  exec (interactive_loop h) tr (interactive_loop h).
Proof.
  intros H. apply (exec_while_again (fun _ : unit => _) tt tr tt).
  now apply exec_try_ok.
Qed.

Lemma loop_leaves tr f :
  exec (poll h) tr (ret (inr f)) -> exec (interactive_loop h) tr (ret f).
Proof.
  intros H. apply (exec_while_done (fun _ : unit => _) tt tr f).
  now apply exec_try_ok.
Qed.

Lemma loop_caught tr e d :
  exec (poll h) tr (raise e) ->
  exec (interactive_loop h)
       (tr ++ [Obs (Print (MError e)) tt; Obs (Describe h) (inr d)] ++
        if PyStr.mem d running_states
        then [Obs (Sleep 2) tt]
        else [Obs (Print (MTerminated d)) tt])
       (if PyStr.mem d running_states
        then interactive_loop h else ret Return).
Proof.
  intros H. pose proof (on_error_run e d) as He.
  destruct (PyStr.mem d running_states).
  - apply (exec_while_again (fun _ : unit => _) tt _ tt).
    eapply exec_try_caught; eassumption.
  - apply (exec_while_done (fun _ : unit => _) tt _ Return).
    eapply exec_try_caught; eassumption.
Qed.

End Loops.

(** *** The complete runs of [ensure_started] *)

Lemma collect_app {A B} (f : A -> option B) l1 l2 :
  collect f (l1 ++ l2) = collect f l1 ++ collect f l2.
Proof.
  induction l1 as [|a l1 IH]; simpl; [reflexivity|].
  destruct (f a); simpl; now rewrite IH.
Qed.

Lemma submissions_app tr1 tr2 :
  submissions (tr1 ++ tr2) = submissions tr1 ++ submissions tr2.
Proof. unfold submissions, calls. now rewrite map_app, filter_app. Qed.

Lemma past_pending_no_submission l :
  forallb past_pending l = true -> filter wants_submission l = [].
Proof.
  induction l as [|r l IH]; simpl; [reflexivity|].
  intros H. apply andb_prop in H. destruct H as [Hr Hl].
  destruct r as [e|[s|]]; simpl in *; try discriminate.
  destruct (String.eqb (status s) "pending"); [discriminate|]. auto.
Qed.

Lemma ensure_started_runs h q tr v :
  exec (ensure_started h q) tr (Ret v) ->
  (exists e, tr = [Obs (QueryGetStatus h) (inl e)] /\ v = inl e)
  \/ (exists r,
        wants_submission (inr r) = false /\
        tr = [Obs (QueryGetStatus h) (inr r)] /\ v = inr tt)
  \/ (exists r u,
        wants_submission (inr r) = true /\
        tr = [Obs (QueryGetStatus h) (inr r);
              Obs (Print (MInitiating q)) tt;
              Obs (UpdateStartResearch h q) u] /\
        v = match u with inl e => inl e | inr _ => inr tt end).
Proof.
  intros H. unfold ensure_started in H.
  inv_call H as [e|[s|]].
  - inv_end H. left. eauto.
  - destruct (String.eqb (status s) "pending") eqn:Hp.
    + inv_call H using Hp as []. inv_call H as [e|s'].
      * inv_end H. right. right. exists (Some s), (inl e). auto.
      * inv_end H. right. right. exists (Some s), (inr s'). auto.
    + inv_run H using Hp. destruct H as [-> <-].
      right. left. exists (Some s). auto.
  - inv_unit H. inv_call H as [e|s'].
    + inv_end H. right. right. exists None, (inl e). auto.
    + inv_end H. right. right. exists None, (inr s'). auto.
Qed.

(** *** The complete runs of the inner loop *)

Lemma current_question_has_index s q :
  get_current_question s = Some q -> exists i, current_question_index s = Some i.
Proof.
  unfold get_current_question.
  destruct (clarification_questions s); [|discriminate].
  destruct (current_question_index s) as [i|]; [eauto|discriminate].
Qed.

Lemma question_loop_runs h tr : forall s v,
  exec (question_loop h s) tr (Ret v) -> question_run h s tr v.
Proof.
  remember (length tr) as n eqn:En. revert tr En.
  induction n as [n IH] using lt_wf_ind. intros tr -> s v H.
  destruct (get_current_question s) as [q|] eqn:Hq.
  - destruct (current_question_has_index s q Hq) as [i Hi].
    unfold question_loop, while, ask_question in H.
    apply exec_inv in H. rewrite <- next_iter in H.
    repeat rewrite next_subst in H. cbn in H. rewrite Hq, Hi in H. cbn in H.
    inv_reply H ipattern:([]). inv_unit H. inv_call H as [e|raw].
    + inv_end H. now apply question_run_input_raises.
    + destruct (PyStr.mem (PyStr.lower (PyStr.strip raw)) exit_words) eqn:Hx.
      * inv_call H using Hx as []. inv_call H as [e|[]].
        -- inv_end H.
           now apply (question_run_exit h s q i raw (inl e)).
        -- inv_end H.
           now apply (question_run_exit h s q i raw (inr tt)).
      * inv_call H using Hx as [e|s'].
        -- inv_end H. now apply question_run_update_raises.
        -- inv_run H.
           apply (question_run_next h s q i raw s'); auto.
           eapply IH; [|reflexivity|exact H]. simpl. lia.
  - unfold question_loop, while, ask_question in H.
    apply exec_inv in H. rewrite <- next_iter in H.
    repeat rewrite next_subst in H. cbn in H. rewrite Hq in H. cbn in H.
    destruct H as [-> <-]. now apply question_run_done.
Qed.

Lemma question_run_exec h s tr v :
  question_run h s tr v -> exec (question_loop h s) tr (Ret v).
Proof.
  induction 1 as [s Hq|s q i e Hq Hi|s q i raw ack Hq Hi Hx
                  |s q i raw e Hq Hi Hx|s q i raw s' tr v Hq Hi Hx _ IH].
  - now apply question_loop_done.
  - apply exec_while_raise. now apply ask_question_input_raises.
  - pose proof (ask_question_exit h s q i raw Hq Hi ack Hx) as Hr.
    destruct ack as [e|u].
    + now apply exec_while_raise.
    + now apply exec_while_done.
  - apply exec_while_raise.
    exact (ask_question_update h s q i raw Hq Hi (inl e) Hx).
  - change (asked s q i (inr raw) ++
            Obs (UpdateProvideSingle h (Some i)
                   (PyStr.or_else (PyStr.strip raw) no_preference)) (inr s')
            :: tr)
      with ((asked s q i (inr raw) ++
             [Obs (UpdateProvideSingle h (Some i)
                     (PyStr.or_else (PyStr.strip raw) no_preference))
                  (inr s')]) ++ tr).
    eapply exec_trans; [|exact IH].
    now apply question_loop_next.
Qed.

Lemma or_else_spec x d :
  PyStr.or_else x d = if String.eqb x "" then d else x.
Proof. destruct x; reflexivity. Qed.

Lemma drive_returns h tr :
  exec (interactive_loop h) tr (ret Return) -> exec (drive h) tr (ret None).
Proof.
  intros H. unfold drive. rewrite <- (app_nil_r tr).
  eapply exec_bind_ok; [exact H|]. apply exec_refl.
Qed.

(** *** Clarify mode *)

Lemma split1_cut arg :
  match cut arg with
  | Some (k, v) =>
      PyStr.split1 "=" arg = [k; v] /\ PyStr.contains_char "=" arg = true
  | None =>
      PyStr.split1 "=" arg = [arg] /\ PyStr.contains_char "=" arg = false
  end.
Proof.
  induction arg as [|ch rest IH];
    cbn [cut PyStr.split1 PyStr.contains_char]; [auto|].
  rewrite (Ascii.eqb_sym "=" ch).
  destruct (Ascii.eqb ch "=") eqn:E; cbn [orb]; [auto|].
  destruct (cut rest) as [[k v]|]; destruct IH as [-> ->]; auto.
Qed.

Lemma cut_some arg k v :
  cut arg = Some (k, v) <->
  arg = (k ++ "=" ++ v)%string /\ PyStr.contains_char "=" k = false.
Proof.
  revert k. induction arg as [|ch rest IH]; intros k; cbn [cut].
  - split; [discriminate|]. intros [H _]. destruct k; discriminate.
  - destruct (Ascii.eqb ch "=") eqn:E.
    + apply Ascii.eqb_eq in E. subst ch. split.
      * intros [= <- <-]. auto.
      * intros [H Hk]. destruct k as [|c k].
        -- cbn [append] in H. now injection H as <-.
        -- cbn [append] in H. injection H as <- _.
           cbn [PyStr.contains_char] in Hk.
           rewrite Ascii.eqb_refl in Hk. discriminate.
    + split.
      * destruct (cut rest) as [[k' v']|] eqn:Hc; [|discriminate].
        intros [= <- <-]. destruct (proj1 (IH k') eq_refl) as [-> Hk].
        cbn [append PyStr.contains_char].
        rewrite (Ascii.eqb_sym "=" ch), E. auto.
      * intros [H Hk]. destruct k as [|c k].
        -- cbn [append] in H. injection H as -> _.
           rewrite Ascii.eqb_refl in E. discriminate.
        -- cbn [append] in H. injection H as <- ->.
           cbn [PyStr.contains_char] in Hk.
           apply orb_false_elim in Hk. destruct Hk as [_ Hk].
           now rewrite (proj2 (IH k) (conj eq_refl Hk)).
Qed.

Lemma dict_get_set k k' v d :
  dict_get k (dict_set k' v d) =
  if String.eqb k k' then Some v else dict_get k d.
Proof.
  induction d as [|[k0 v0] d IH]; simpl.
  - reflexivity.
  - destruct (String.eqb k' k0) eqn:E0; simpl.
    + apply String.eqb_eq in E0. subst k0.
      destruct (String.eqb k k'); reflexivity.
    + destruct (String.eqb k k0) eqn:E1.
      * apply String.eqb_eq in E1. subst k0.
        rewrite String.eqb_sym, E0. reflexivity.
      * exact IH.
Qed.

Lemma dict_set_keys k v d :
  map fst (dict_set k v d) =
  if PyStr.mem k (map fst d) then map fst d else map fst d ++ [k].
Proof.
  unfold PyStr.mem. induction d as [|[k0 v0] d IH]; simpl.
  - reflexivity.
  - destruct (String.eqb k k0); simpl; [reflexivity|].
    rewrite IH. destruct (existsb (String.eqb k) (map fst d)); reflexivity.
Qed.

Lemma dict_set_nodup k v d :
  NoDup (map fst d) -> NoDup (map fst (dict_set k v d)).
Proof.
  intros H. rewrite dict_set_keys.
  destruct (PyStr.mem k (map fst d)) eqn:E; [exact H|].
  apply NoDup_app; [exact H|repeat constructor; simpl; tauto|].
  intros x Hx [Hk|[]]. subst x. unfold PyStr.mem in E.
  assert (existsb (String.eqb k) (map fst d) = true) as F.
  { apply existsb_exists. exists k. split; [exact Hx|apply String.eqb_refl]. }
  congruence.
Qed.

Lemma parse_clarifications_from args : forall d0,
  NoDup (map fst d0) ->
  exists d,
    fold_left parse_step args (inr d0) = inr d
    /\ NoDup (map fst d)
    /\ forall k, dict_get k d = match last_value k args with
                                | Some v => Some v
                                | None => dict_get k d0
                                end.
Proof.
  induction args as [|arg args IH]; intros d0 Hd0;
    cbn [fold_left last_value].
  - exists d0. auto.
  - pose proof (split1_cut arg) as Hc. unfold parse_step at 2.
    destruct (cut arg) as [[k' v']|]; destruct Hc as [-> ->].
    + destruct (IH (dict_set k' v' d0) (dict_set_nodup _ _ _ Hd0))
        as (d & Hd & Hnd & Hget).
      exists d. repeat split; auto. intros k. rewrite Hget, dict_get_set.
      destruct (last_value k args); [reflexivity|].
      destruct (String.eqb k k'); reflexivity.
    + destruct (IH d0 Hd0) as (d & Hd & Hnd & Hget).
      exists d. repeat split; auto. intros k. rewrite Hget.
      destruct (last_value k args); reflexivity.
Qed.

Lemma parse_clarifications_filter args :
  parse_clarifications (filter (PyStr.contains_char "=") args) =
  parse_clarifications args.
Proof.
  unfold parse_clarifications.
  enough (forall acc,
             fold_left parse_step (filter (PyStr.contains_char "=") args) acc =
             fold_left parse_step args acc) as H by apply H.
  induction args as [|arg args IH]; intros acc; cbn [filter fold_left].
  - reflexivity.
  - destruct (PyStr.contains_char "=" arg) eqn:E; cbn [fold_left].
    + apply IH.
    + rewrite IH. f_equal. unfold parse_step. rewrite E.
      destruct acc; reflexivity.
Qed.

(** * The claims *)

(** ** C9: the legacy entry point *)

(** C9.  For every client, query and workflow id, [run_interactive_research]
    is the very program [run_interactive_research_with_clarifications] on
    the same three arguments; so the two have the same runs and the same
    results. *)
Theorem run_interactive_research_delegates c query wid :
  run_interactive_research c query wid =
  run_interactive_research_with_clarifications c query wid
  /\ forall tr t,
      exec (run_interactive_research c query wid) tr t <->
      exec (run_interactive_research_with_clarifications c query wid) tr t.
Proof.
  split; [reflexivity|]. intros tr t. reflexivity.
Qed.

(** ** C10: an absent snapshot *)

(** C10.  When the status query of a polling iteration succeeds with an
    absent snapshot, the driver sleeps one time unit and is back at the
    head of the polling loop: it neither leaves the loop, nor prints an
    error, nor asks for the coarse status.  Every run to completion that
    starts this way is of that form. *)
Theorem absent_snapshot_repolls h :
  exec (interactive_loop h)
       [Obs (QueryGetStatus h) (inr None); Obs (Sleep 1) tt]
       (interactive_loop h)
  /\ forall tr v,
      exec (interactive_loop h) (Obs (QueryGetStatus h) (inr None) :: tr) (Ret v) ->
      exists tr', tr = Obs (Sleep 1) tt :: tr' /\
                  exec (interactive_loop h) tr' (Ret v).
Proof.
  split.
  - run_call. run_call. run_tau. apply exec_refl.
  - intros tr v H.
    inv_run H. destruct H as (r & tr1 & E & H).
    apply obs_cons_inj in E. destruct E as [<- <-]. cbn in H.
    inv_run H. destruct H as ([] & tr2 & -> & H). cbn in H.
    inv_run H. exists tr2. split; [reflexivity|exact H].
Qed.

Lemma absent_snapshot_repolls_witness :
  exists tr',
    [Obs (Sleep 1) tt; Obs (QueryGetStatus 5) (inr (Some completed_snapshot))]
    = Obs (Sleep 1) tt :: tr' /\
    exec (interactive_loop 5) tr' (ret Break).
Proof.
  apply (proj2 (absent_snapshot_repolls 5)).
  apply (run_sound 10 _ [RStatus (inr None); RStatus (inr (Some completed_snapshot))]).
  vm_compute. reflexivity.
Defined.

(** ** C1: a snapshot that reports a failed run *)

(** C1 (what the code does).  A snapshot whose status is [failed],
    [timed_out], [terminated] or [canceled] falls through to the last
    branch of the polling loop: the driver prints the status as
    unexpected, sleeps two time units and is back at the head of the
    polling loop.  Every run to completion that starts with such a
    snapshot is of that form: the snapshot alone never ends the loop. *)
Theorem failed_snapshot_is_polled_again h s :
  In (status s) ["failed"; "timed_out"; "terminated"; "canceled"] ->
  exec (interactive_loop h)
       [Obs (QueryGetStatus h) (inr (Some s));
        Obs (Print (MUnexpected (status s))) tt;
        Obs (Sleep 2) tt]
       (interactive_loop h)
  /\ forall tr v,
      exec (interactive_loop h)
           (Obs (QueryGetStatus h) (inr (Some s)) :: tr) (Ret v) ->
      exists tr',
        tr = Obs (Print (MUnexpected (status s))) tt
             :: Obs (Sleep 2) tt :: tr' /\
        exec (interactive_loop h) tr' (Ret v).
Proof.
  intros Hs.
  assert (PyStr.mem (status s) question_statuses = false
          /\ String.eqb (status s) "researching" = false
          /\ String.eqb (status s) "completed" = false
          /\ String.eqb (status s) "pending" = false) as (E1 & E2 & E3 & E4).
  { simpl in Hs. destruct Hs as [<-|[<-|[<-|[<-|[]]]]];
      repeat split; reflexivity. }
  split.
  - apply loop_again. unfold poll.
    eapply (exec_bind_ok _ _ [_]);
      [apply (exec_await (QueryGetStatus h) (inr (Some s)))|].
    cbv beta iota. rewrite E1, E2, E3, E4.
    eapply (exec_bind_ok _ _ [_]); [apply exec_print|].
    eapply (exec_bind_ok _ _ [_] _ []); [apply exec_sleep|].
    apply exec_refl.
  - intros tr v H.
    inv_run H. destruct H as (r & tr1 & E & H).
    apply obs_cons_inj in E. destruct E as [<- <-]. cbn in H.
    apply exec_inv in H. repeat rewrite next_subst in H. cbn in H.
    rewrite E1, E2, E3, E4 in H. cbn in H.
    destruct H as ([] & tr2 & -> & H). cbn in H.
    inv_run H. destruct H as ([] & tr3 & -> & H). cbn in H.
    inv_run H. exists tr3. split; [reflexivity|exact H].
Qed.

Lemma failed_snapshot_is_polled_again_witness :
  exec (interactive_loop 5)
       [Obs (QueryGetStatus 5) (inr (Some failed_snapshot));
        Obs (Print (MUnexpected "failed")) tt;
        Obs (Sleep 2) tt]
       (interactive_loop 5).
Proof.
  apply (failed_snapshot_is_polled_again 5 failed_snapshot).
  simpl. left. reflexivity.
Defined.

(** ** C2: resume or start *)

(** C2 (as stated, refuted).  The handle is obtained, the status query
    succeeds and answers no terminal status (it answers an absent
    snapshot), and yet a new run is started: starting is not equivalent to
    the three conditions of the claim. *)
Lemma resolve_starts_on_absent_snapshot :
  exec (resolve_or_start 0 "wf") absent_snapshot_run (ret 6)
  /\ ~ (starts absent_snapshot_run <> [] <->
        lookup_failed absent_snapshot_run = true
        \/ query_failed absent_snapshot_run = true
        \/ status_terminal absent_snapshot_run = true).
Proof.
  split.
  - apply (run_sound 20 _ [RHandle (inr 5); RStatus (inr None);
                           RClock 1700000000%Z; RHandle (inr 6)]).
    vm_compute. reflexivity.
  - intros [H _].
    destruct H as [H|[H|H]]; [discriminate| vm_compute in H..];
      discriminate.
Qed.

(** C2 (amended).  In every complete run of [resolve_or_start], a new run
    is started exactly when handle acquisition fails, the status query
    fails, the returned status is terminal, or the returned snapshot is
    absent.  When none is started, the handle that was obtained is the
    result.  At most one run is started, and its identifier is the
    original one suffixed with ["-"] and the clock reading. *)
Theorem resolve_or_start_decision c wid tr v :
  exec (resolve_or_start c wid) tr (Ret v) ->
  (starts tr <> [] <->
     lookup_failed tr = true \/ query_failed tr = true
     \/ status_terminal tr = true \/ snapshot_absent tr = true)
  /\ (starts tr = [] ->
      exists h, In (Obs (GetWorkflowHandle c wid) (inr h)) tr /\ v = inr h)
  /\ (starts tr = [] \/
      exists now,
        In (Obs Time now) tr /\
        starts tr = [StartWorkflow c (wid ++ "-" ++ PyStr.of_int now) task_queue]).
Proof.
  intros H. apply resolve_or_start_runs in H.
  destruct H as [h s Hs|pre now h Hpre|pre now e Hpre].
  - cbn. unfold status_terminal. cbn. rewrite Hs. cbn. repeat split.
    + intros F. now contradiction F.
    + intros [F|[F|[F|F]]]; discriminate.
    + intros _. exists h. split; [now left|reflexivity].
    + now left.
  - destruct Hpre as [e'|h' e'|h'|h' s Hs]; cbn;
      unfold status_terminal; cbn; rewrite ?Hs; cbn;
      (repeat split;
       [ intros _; auto
       | intros _; discriminate
       | discriminate
       | right; exists now; split; [simpl; tauto|reflexivity] ]).
  - destruct Hpre as [e'|h' e'|h'|h' s Hs]; cbn;
      unfold status_terminal; cbn; rewrite ?Hs; cbn;
      (repeat split;
       [ intros _; auto
       | intros _; discriminate
       | discriminate
       | right; exists now; split; [simpl; tauto|reflexivity] ]).
Qed.

Lemma resolve_or_start_decision_witness :
  (starts absent_snapshot_run <> [] <->
     lookup_failed absent_snapshot_run = true
     \/ query_failed absent_snapshot_run = true
     \/ status_terminal absent_snapshot_run = true
     \/ snapshot_absent absent_snapshot_run = true)
  /\ (starts absent_snapshot_run = [] ->
      exists h, In (Obs (GetWorkflowHandle 0 "wf") (inr h)) absent_snapshot_run
                /\ @inr exn Handle 6 = inr h)
  /\ (starts absent_snapshot_run = [] \/
      exists now,
        In (Obs Time now) absent_snapshot_run /\
        starts absent_snapshot_run =
        [StartWorkflow 0 ("wf" ++ "-" ++ PyStr.of_int now) task_queue]).
Proof.
  apply (resolve_or_start_decision 0 "wf" absent_snapshot_run (inr 6)).
  apply (run_sound 20 _ [RHandle (inr 5); RStatus (inr None);
                         RClock 1700000000%Z; RHandle (inr 6)]).
  vm_compute. reflexivity.
Defined.

(** ** C7: a start that fails *)

(** C7.  In every complete run of [resolve_or_start] in which starting the
    new run fails with [e]: the failure is printed and nothing follows it,
    [e] is raised to the caller, the start was attempted once only, and
    the whole driver ends raising [e] without a further call. *)
Theorem start_failure_is_fatal c wid tr v id queue e :
  exec (resolve_or_start c wid) tr (Ret v) ->
  In (Obs (StartWorkflow c id queue) (inl e)) tr ->
  v = inl e
  /\ (exists pre,
        tr = pre ++ [Obs (StartWorkflow c id queue) (inl e);
                     Obs (Print (MFailedStart e)) tt])
  /\ length (starts tr) = 1
  /\ forall query,
      exec (run_interactive_research_with_clarifications c query wid)
           (Obs (Print (MStarting query)) tt :: tr) (raise e).
Proof.
  intros H Hin.
  assert (Hrun := H). apply resolve_or_start_runs in Hrun.
  assert (forall pre, lookup_run c wid pre ->
                      ~ In (Obs (StartWorkflow c id queue) (inl e)) pre
                      /\ starts pre = []) as Hlookup.
  { intros pre Hpre.
    destruct Hpre; (split; [|reflexivity]); simpl;
      intros F; repeat (destruct F as [F|F]; [apply obs_call_eq in F; discriminate|]);
      exact F. }
  destruct Hrun as [h s Hs|pre now h Hpre|pre now e' Hpre].
  - exfalso. simpl in Hin.
    repeat (destruct Hin as [Hin|Hin]; [apply obs_call_eq in Hin; discriminate|]).
    exact Hin.
  - exfalso. destruct (Hlookup pre Hpre) as [Hno _].
    apply in_app_or in Hin. destruct Hin as [Hin|Hin]; [now apply Hno|].
    simpl in Hin.
    destruct Hin as [Hin|[Hin|[Hin|[]]]];
      try (apply obs_call_eq in Hin; discriminate).
    assert (Hc := obs_call_eq _ _ _ _ Hin). injection Hc as <- <-.
    apply obs_inj in Hin. discriminate.
  - destruct (Hlookup pre Hpre) as [Hno Hstarts].
    apply in_app_or in Hin. destruct Hin as [Hin|Hin]; [now apply Hno in Hin|].
    simpl in Hin.
    destruct Hin as [Hin|[Hin|[Hin|[Hin|[]]]]];
      try (apply obs_call_eq in Hin; discriminate).
    assert (Hc := obs_call_eq _ _ _ _ Hin). injection Hc as <- <-.
    apply obs_inj in Hin. injection Hin as <-.
    repeat split.
    + exists (pre ++ [Obs Time now;
                      Obs (Print (MStartingNew (unique_id wid now))) tt]).
      now rewrite <- app_assoc.
    + unfold starts, calls in *. rewrite map_app, filter_app, Hstarts.
      reflexivity.
    + intros query. unfold run_interactive_research_with_clarifications.
      eapply (exec_bind_ok _ _ [_]); [apply exec_print|].
      apply exec_bind_raise. exact H.
Qed.

Lemma start_failure_is_fatal_witness :
  @inl exn Handle "unavailable" = inl "unavailable"
  /\ (exists pre,
        failed_start_run =
        pre ++ [Obs (StartWorkflow 0 "wf-1700000000" task_queue)
                    (inl "unavailable");
                Obs (Print (MFailedStart "unavailable")) tt])
  /\ length (starts failed_start_run) = 1
  /\ forall query,
      exec (run_interactive_research_with_clarifications 0 query "wf")
           (Obs (Print (MStarting query)) tt :: failed_start_run)
           (raise "unavailable").
Proof.
  apply (start_failure_is_fatal 0 "wf" failed_start_run).
  - apply (run_sound 20 _ [RHandle (inl "not found");
                           RClock 1700000000%Z; RHandle (inl "unavailable")]).
    vm_compute. reflexivity.
  - simpl. tauto.
Defined.

(** ** C3: the initial query *)

(** C3.  In every complete run of [ensure_started] invoked any number of
    times in a row on a run: there are as many submissions as status
    queries answered with an absent or pending snapshot, so the query is
    submitted only then; each submission is the start-research update
    with the query; and when every status query answers a snapshot past
    [pending] there is no submission at all. *)
Theorem ensure_started_idempotent n h q tr v :
  exec (ensure_started_times n h q) tr (Ret v) ->
  length (submissions tr) =
  length (filter wants_submission (collect status_reply tr))
  /\ Forall (eq (UpdateStartResearch h q)) (submissions tr)
  /\ (forallb past_pending (collect status_reply tr) = true ->
      submissions tr = []).
Proof.
  intros H.
  assert (length (submissions tr) =
          length (filter wants_submission (collect status_reply tr))
          /\ Forall (eq (UpdateStartResearch h q)) (submissions tr)) as [Hn Hall].
  { revert tr v H. induction n as [|n IH]; intros tr v H; simpl in H.
    - inv_end H. split; [reflexivity|constructor].
    - apply exec_bind_inv in H.
      assert (forall tr1 x, exec (ensure_started h q) tr1 (Ret x) ->
                length (submissions tr1) =
                length (filter wants_submission (collect status_reply tr1))
                /\ Forall (eq (UpdateStartResearch h q)) (submissions tr1)) as Hone.
      { intros tr1 x H1. apply ensure_started_runs in H1.
        destruct H1 as [(e & -> & _)|[(r & Hr & -> & _)|(r & u & Hr & -> & _)]];
          unfold submissions, calls; cbn [map filter call_of is_submit collect status_reply length];
          rewrite ?Hr; cbn [length]; split; auto. }
      destruct H as [(e & H1 & _)|(a & tr1 & tr2 & -> & H1 & H2)].
      + eapply Hone; eassumption.
      + destruct (Hone _ _ H1) as [E1 F1]. destruct (IH _ _ H2) as [E2 F2].
        rewrite submissions_app, collect_app, filter_app, !length_app.
        split; [congruence|]. apply Forall_app. auto. }
  repeat split; auto.
  intros Hpast. apply past_pending_no_submission in Hpast.
  rewrite Hpast in Hn. simpl in Hn. now apply length_zero_iff_nil.
Qed.

Lemma ensure_started_idempotent_witness :
  let tr := [Obs (QueryGetStatus 5) (inr (Some researching_snapshot));
             Obs (QueryGetStatus 5) (inr (Some researching_snapshot))] in
  length (submissions tr) =
  length (filter wants_submission (collect status_reply tr))
  /\ Forall (eq (UpdateStartResearch 5 "surfing")) (submissions tr)
  /\ (forallb past_pending (collect status_reply tr) = true ->
      submissions tr = []).
Proof.
  apply (ensure_started_idempotent 2 5 "surfing" _ (inr tt)).
  apply (run_sound 10 _ [RStatus (inr (Some researching_snapshot));
                         RStatus (inr (Some researching_snapshot))]).
  vm_compute. reflexivity.
Defined.

(** ** C4: the exit words *)

(** C4 (as stated, refuted).  The answer ["quit"] is an exit word, and
    yet the driver does not return at once after its signal: the signal
    raises inside the [try] of the polling loop, the engine says the run
    is [RUNNING], and the driver goes on to a further status query and to
    a second termination signal before it returns. *)
Lemma exit_word_signal_failure_polls_again :
  PyStr.mem (PyStr.lower (PyStr.strip "quit")) exit_words = true
  /\ exec (drive 5) (quit_round ++ after_failed_signal) (ret None)
  /\ last quit_round (Obs (Print MEnding) tt)
     = Obs (Input "Your answer: ") (inr "quit")
  /\ existsb is_status_query (calls after_failed_signal) = true
  /\ signals after_failed_signal
     = [SignalEndWorkflow 5; SignalEndWorkflow 5].
Proof.
  split; [reflexivity|]. split; [|repeat split].
  apply (run_sound 60 _ [RStatus (inr (Some (budget_snapshot 0)));
                         RText (inr "quit"); RAck (inl "unavailable");
                         RText (inr "RUNNING");
                         RStatus (inr (Some (budget_snapshot 0)));
                         RText (inr "quit"); RAck (inr tt)]).
  vm_compute. reflexivity.
Qed.

(** C4 (amended).  In any round of the inner loop (reached from the
    snapshot [s0] that opened the questions, after the rounds of [tr0]),
    an answer whose trimmed, lower-cased form is an exit word makes the
    driver print that the session ends and send the termination signal,
    with no answer update.  When the signal is acknowledged the driver
    returns [None] at once: its run is over with no further status query,
    no answer update and no result fetch, and nothing is raised.  When
    the signal raises, the exception is that of the [try] block of the
    polling loop: it is printed and the run is described; if the engine
    says the run is not running the driver prints so and returns [None],
    otherwise it sleeps two time units and is back at the head of its
    polling, from where further queries and signals may follow.  In every
    complete run of the inner loop, an exit word that was read is
    followed by that print and that signal and by nothing else, and the
    loop ends with [return] when the signal is acknowledged and with the
    signal's exception otherwise. *)
Theorem exit_word_signal_outcomes h s0 tr0 s q i raw :
  PyStr.mem (status s0) question_statuses = true ->
  exec (question_loop h s0) tr0 (question_loop h s) ->
  get_current_question s = Some q ->
  current_question_index s = Some i ->
  PyStr.mem (PyStr.lower (PyStr.strip raw)) exit_words = true ->
  exec (drive h)
       (Obs (QueryGetStatus h) (inr (Some s0))
        :: Obs (Print MNeedClarifications) tt
        :: Obs (Print MDashes) tt
        :: tr0 ++
        [Obs (Print (MQuestionOf (i + 1) (question_count s))) tt;
         Obs (Print (MQuestion q)) tt;
         Obs (Input "Your answer: ") (inr raw);
         Obs (Print MEnding) tt;
         Obs (SignalEndWorkflow h) (inr tt)])
       (ret None)
  /\ (forall e d,
        exec (drive h)
             ((Obs (QueryGetStatus h) (inr (Some s0))
               :: Obs (Print MNeedClarifications) tt
               :: Obs (Print MDashes) tt
               :: tr0 ++
               [Obs (Print (MQuestionOf (i + 1) (question_count s))) tt;
                Obs (Print (MQuestion q)) tt;
                Obs (Input "Your answer: ") (inr raw);
                Obs (Print MEnding) tt;
                Obs (SignalEndWorkflow h) (inl e)]) ++
              [Obs (Print (MError e)) tt; Obs (Describe h) (inr d)] ++
              if PyStr.mem d running_states
              then [Obs (Sleep 2) tt]
              else [Obs (Print (MTerminated d)) tt])
             (if PyStr.mem d running_states then drive h else ret None))
  /\ forall s1 tr v prompt,
      exec (question_loop h s1) tr (Ret v) ->
      In (Obs (Input prompt) (inr raw)) tr ->
      exists pre ack,
        tr = pre ++ [Obs (Input prompt) (inr raw);
                     Obs (Print MEnding) tt;
                     Obs (SignalEndWorkflow h) ack] /\
        v = match ack with
            | inl e => inl e
            | inr _ => inr (Some Return)
            end.
Proof.
  intros Hs0 Hrounds Hq Hi Hx. split; [|split].
  - apply drive_returns, loop_leaves.
    apply (poll_questions h s0 _ (inr (Some Return)) Hs0).
    eapply exec_trans; [exact Hrounds|].
    apply exec_while_done.
    exact (ask_question_exit h s q i raw Hq Hi (inr tt) Hx).
  - intros e d.
    assert (exec (poll h)
              (Obs (QueryGetStatus h) (inr (Some s0))
               :: Obs (Print MNeedClarifications) tt
               :: Obs (Print MDashes) tt
               :: tr0 ++
               [Obs (Print (MQuestionOf (i + 1) (question_count s))) tt;
                Obs (Print (MQuestion q)) tt;
                Obs (Input "Your answer: ") (inr raw);
                Obs (Print MEnding) tt;
                Obs (SignalEndWorkflow h) (inl e)])
              (raise e)) as Hpoll.
    { apply (poll_questions h s0 _ (inl e) Hs0).
      eapply exec_trans; [exact Hrounds|].
      apply exec_while_raise.
      exact (ask_question_exit h s q i raw Hq Hi (inl e) Hx). }
    pose proof (loop_caught h _ e d Hpoll) as Hloop.
    destruct (PyStr.mem d running_states).
    + unfold drive, bind. apply exec_subst. exact Hloop.
    + apply drive_returns. exact Hloop.
  - clear - Hx. intros s1 tr v prompt H Hin.
    apply question_loop_runs in H.
    induction H as [s _|s q i e _ _|s q i raw0 ack _ _ _|s q i raw0 e _ _ Hn
                    |s q i raw0 s' tr v _ _ Hn _ IH];
      simpl in Hin.
    + contradiction.
    + destruct Hin as [Hin|[Hin|[Hin|[]]]];
        try (apply obs_call_eq in Hin; discriminate).
      assert (Hc := obs_call_eq _ _ _ _ Hin). injection Hc as <-.
      apply obs_inj in Hin. discriminate.
    + destruct Hin as [Hin|[Hin|[Hin|[Hin|[Hin|[]]]]]];
        try (apply obs_call_eq in Hin; discriminate).
      assert (Hc := obs_call_eq _ _ _ _ Hin). injection Hc as <-.
      apply obs_inj in Hin. injection Hin as ->.
      exists [Obs (Print (MQuestionOf (i + 1) (question_count s))) tt;
              Obs (Print (MQuestion q)) tt], ack.
      split; reflexivity.
    + destruct Hin as [Hin|[Hin|[Hin|[Hin|[]]]]];
        try (apply obs_call_eq in Hin; discriminate).
      assert (Hc := obs_call_eq _ _ _ _ Hin). injection Hc as <-.
      apply obs_inj in Hin. injection Hin as ->. congruence.
    + destruct Hin as [Hin|[Hin|[Hin|[Hin|Hin]]]];
        try (apply obs_call_eq in Hin; discriminate).
      * assert (Hc := obs_call_eq _ _ _ _ Hin). injection Hc as <-.
        apply obs_inj in Hin. injection Hin as ->. congruence.
      * destruct (IH Hin) as (pre & ack & -> & ->).
        exists (asked s q i (inr raw0) ++
                Obs (UpdateProvideSingle h (Some i)
                       (PyStr.or_else (PyStr.strip raw0) no_preference))
                    (inr s') :: pre), ack.
        split; reflexivity.
Qed.

Lemma exit_word_signal_outcomes_witness :
  exec (drive 5)
       [Obs (QueryGetStatus 5) (inr (Some (budget_snapshot 0)));
        Obs (Print MNeedClarifications) tt;
        Obs (Print MDashes) tt;
        Obs (Print (MQuestionOf 1 2)) tt;
        Obs (Print (MQuestion "Budget?")) tt;
        Obs (Input "Your answer: ") (inr "1000");
        Obs (UpdateProvideSingle 5 (Some 0%Z) "1000") (inr (budget_snapshot 1));
        Obs (Print (MQuestionOf 2 2)) tt;
        Obs (Print (MQuestion "Dates?")) tt;
        Obs (Input "Your answer: ") (inr " Done ");
        Obs (Print MEnding) tt;
        Obs (SignalEndWorkflow 5) (inr tt)]
       (ret None).
Proof.
  apply (exit_word_signal_outcomes 5 (budget_snapshot 0)
           [Obs (Print (MQuestionOf 1 2)) tt;
            Obs (Print (MQuestion "Budget?")) tt;
            Obs (Input "Your answer: ") (inr "1000");
            Obs (UpdateProvideSingle 5 (Some 0%Z) "1000")
                (inr (budget_snapshot 1))]
           (budget_snapshot 1) "Dates?" 1%Z " Done ").
  - reflexivity.
  - apply (question_loop_next 5 (budget_snapshot 0) "Budget?" 0%Z "1000");
      reflexivity.
  - reflexivity.
  - reflexivity.
  - reflexivity.
Defined.

(** ** C5: what is submitted as an answer *)

(** C5.  A round of the inner loop that reads an answer which is not an
    exit word submits, for the question index of the snapshot it showed,
    the trimmed answer, or the sentinel ["No specific preference"] when
    the trimmed answer is empty; what it submits is never the empty
    string, and the next round works on the snapshot the update returned.
    In every complete run of the inner loop, every submitted answer is
    non-empty and is the trimmed form of an answer read in that run, or
    the sentinel in its place. *)
Theorem answer_submission h s q i raw s' :
  get_current_question s = Some q ->
  current_question_index s = Some i ->
  PyStr.mem (PyStr.lower (PyStr.strip raw)) exit_words = false ->
  let answer := if String.eqb (PyStr.strip raw) ""
                then "No specific preference" else PyStr.strip raw in
  answer <> ""
  /\ exec (question_loop h s)
          [Obs (Print (MQuestionOf (i + 1) (question_count s))) tt;
           Obs (Print (MQuestion q)) tt;
           Obs (Input "Your answer: ") (inr raw);
           Obs (UpdateProvideSingle h (current_question_index s) answer)
               (inr s')]
          (question_loop h s')
  /\ forall tr v,
      exec (question_loop h s) tr (Ret v) ->
      forall h' idx submitted reply,
        In (Obs (UpdateProvideSingle h' idx submitted) reply) tr ->
        submitted <> "" /\
        exists read,
          In (Obs (Input "Your answer: ") (inr read)) tr /\
          submitted = if String.eqb (PyStr.strip read) ""
                      then "No specific preference" else PyStr.strip read.
Proof.
  intros Hq Hi Hx answer.
  assert (forall x, (if String.eqb x "" then "No specific preference" else x) <> "")
    as Hne.
  { intros x. destruct x; discriminate. }
  split; [apply Hne|]. split.
  - subst answer. rewrite Hi, <- or_else_spec.
    exact (question_loop_next h s q i raw s' Hq Hi Hx).
  - clear. intros tr v H. apply question_loop_runs in H.
    assert (forall x, (if String.eqb x "" then "No specific preference" else x) <> "")
      as Hne.
    { intros x. destruct x; discriminate. }
    induction H as [s _|s q i e _ _|s q i raw ack _ _ _|s q i raw e _ _ _
                    |s q i raw s' tr v _ _ _ _ IH];
      intros h' idx submitted reply Hin; simpl in Hin.
    + contradiction.
    + repeat (destruct Hin as [Hin|Hin];
              [apply obs_call_eq in Hin; discriminate|]).
      contradiction.
    + repeat (destruct Hin as [Hin|Hin];
              [apply obs_call_eq in Hin; discriminate|]).
      contradiction.
    + destruct Hin as [Hin|[Hin|[Hin|[Hin|[]]]]];
        try (apply obs_call_eq in Hin; discriminate).
      apply obs_call_eq in Hin. injection Hin as <- <- <-.
      rewrite or_else_spec. split; [apply Hne|].
      exists raw. split; [simpl; tauto|reflexivity].
    + destruct Hin as [Hin|[Hin|[Hin|[Hin|Hin]]]];
        try (apply obs_call_eq in Hin; discriminate).
      * apply obs_call_eq in Hin. injection Hin as <- <- <-.
        rewrite or_else_spec. split; [apply Hne|].
        exists raw. split; [simpl; tauto|reflexivity].
      * destruct (IH _ _ _ _ Hin) as (Hn & read & Hread & ->).
        split; [exact Hn|]. exists read. split; [|reflexivity].
        simpl. tauto.
Qed.

Lemma answer_submission_witness :
  "No specific preference" <> ""
  /\ exec (question_loop 5 (budget_snapshot 1))
          [Obs (Print (MQuestionOf 2 2)) tt;
           Obs (Print (MQuestion "Dates?")) tt;
           Obs (Input "Your answer: ") (inr "   ");
           Obs (UpdateProvideSingle 5 (Some 1%Z) "No specific preference")
               (inr (budget_snapshot 2))]
          (question_loop 5 (budget_snapshot 2))
  /\ forall tr v,
      exec (question_loop 5 (budget_snapshot 1)) tr (Ret v) ->
      forall h' idx submitted reply,
        In (Obs (UpdateProvideSingle h' idx submitted) reply) tr ->
        submitted <> "" /\
        exists read,
          In (Obs (Input "Your answer: ") (inr read)) tr /\
          submitted = if String.eqb (PyStr.strip read) ""
                      then "No specific preference" else PyStr.strip read.
Proof.
  apply (answer_submission 5 (budget_snapshot 1) "Dates?" 1%Z "   "
                           (budget_snapshot 2));
    reflexivity.
Defined.

(** ** C6: exceptions while polling *)

(** C6.  Whatever exception [e] the [try] block of a polling iteration
    ends with, after the calls of [tr], the driver prints it and asks the
    engine to describe the run; described as [RUNNING] or
    [CONTINUED_AS_NEW], it sleeps two time units and is back at the head
    of the polling loop, and [e] goes no further; described as anything
    else, it prints that the run has terminated and leaves the loop, and
    the driver returns [None].  A status query that raises ends the [try]
    block with its exception, and so does an answer update that raises, in
    any round of the inner loop. *)
Theorem polling_errors_are_caught h e d :
  (forall tr,
      exec (poll h) tr (raise e) ->
      exec (interactive_loop h)
           (tr ++ [Obs (Print (MError e)) tt; Obs (Describe h) (inr d)] ++
            if PyStr.mem d running_states
            then [Obs (Sleep 2) tt]
            else [Obs (Print (MTerminated d)) tt])
           (if PyStr.mem d running_states
            then interactive_loop h else ret Return))
  /\ (forall tr,
         PyStr.mem d running_states = false ->
         exec (poll h) tr (raise e) ->
         exec (drive h)
              (tr ++ [Obs (Print (MError e)) tt; Obs (Describe h) (inr d);
                      Obs (Print (MTerminated d)) tt])
              (ret None))
  /\ exec (poll h) [Obs (QueryGetStatus h) (inl e)] (raise e)
  /\ (forall s0 tr0 s q i raw,
         PyStr.mem (status s0) question_statuses = true ->
         exec (question_loop h s0) tr0 (question_loop h s) ->
         get_current_question s = Some q ->
         current_question_index s = Some i ->
         PyStr.mem (PyStr.lower (PyStr.strip raw)) exit_words = false ->
         exec (poll h)
              (Obs (QueryGetStatus h) (inr (Some s0))
               :: Obs (Print MNeedClarifications) tt
               :: Obs (Print MDashes) tt
               :: tr0 ++
               [Obs (Print (MQuestionOf (i + 1) (question_count s))) tt;
                Obs (Print (MQuestion q)) tt;
                Obs (Input "Your answer: ") (inr raw);
                Obs (UpdateProvideSingle h (Some i)
                       (PyStr.or_else (PyStr.strip raw) no_preference))
                    (inl e)])
              (raise e)).
Proof.
  repeat split.
  - intros tr H. now apply loop_caught.
  - intros tr Hd H. apply drive_returns.
    pose proof (loop_caught h tr e d H) as Hl. rewrite Hd in Hl. exact Hl.
  - unfold poll. apply exec_bind_raise.
    apply (exec_await (QueryGetStatus h) (inl e)).
  - intros s0 tr0 s q i raw Hs0 Hrounds Hq Hi Hx.
    apply (poll_questions h s0 _ (inl e) Hs0).
    eapply exec_trans; [exact Hrounds|].
    apply exec_while_raise.
    exact (ask_question_update h s q i raw Hq Hi (inl e) Hx).
Qed.

Lemma polling_errors_are_caught_witness :
  exec (interactive_loop 5)
       [Obs (QueryGetStatus 5) (inl "deadline exceeded");
        Obs (Print (MError "deadline exceeded")) tt;
        Obs (Describe 5) (inr "RUNNING");
        Obs (Sleep 2) tt]
       (interactive_loop 5)
  /\ exec (drive 5)
          [Obs (QueryGetStatus 5) (inr (Some (budget_snapshot 0)));
           Obs (Print MNeedClarifications) tt;
           Obs (Print MDashes) tt;
           Obs (Print (MQuestionOf 1 2)) tt;
           Obs (Print (MQuestion "Budget?")) tt;
           Obs (Input "Your answer: ") (inr "1000");
           Obs (UpdateProvideSingle 5 (Some 0%Z) "1000") (inl "run failed");
           Obs (Print (MError "run failed")) tt;
           Obs (Describe 5) (inr "FAILED");
           Obs (Print (MTerminated "FAILED")) tt]
          (ret None).
Proof.
  split.
  - apply (proj1 (polling_errors_are_caught 5 "deadline exceeded" "RUNNING")
                 [Obs (QueryGetStatus 5) (inl "deadline exceeded")]).
    apply (polling_errors_are_caught 5 "deadline exceeded" "RUNNING").
  - apply (proj1 (proj2 (polling_errors_are_caught 5 "run failed" "FAILED"))
                 [Obs (QueryGetStatus 5) (inr (Some (budget_snapshot 0)));
                  Obs (Print MNeedClarifications) tt;
                  Obs (Print MDashes) tt;
                  Obs (Print (MQuestionOf 1 2)) tt;
                  Obs (Print (MQuestion "Budget?")) tt;
                  Obs (Input "Your answer: ") (inr "1000");
                  Obs (UpdateProvideSingle 5 (Some 0%Z) "1000")
                      (inl "run failed")]);
      [reflexivity|].
    apply (proj2 (proj2 (proj2
             (polling_errors_are_caught 5 "run failed" "FAILED")))
             (budget_snapshot 0) [] (budget_snapshot 0) "Budget?" 0%Z "1000");
      try reflexivity.
    apply exec_refl.
Defined.

(** ** C8: parsing [KEY=VALUE] arguments *)

(** C8 (as stated, refuted).  Two arguments with the separator and the
    same key leave one entry, not one entry per argument. *)
Lemma duplicate_keys_share_an_entry :
  parse_clarifications ["a=1"; "a=2"] = inr [("a", "2")]
  /\ ~ (exists d,
          parse_clarifications ["a=1"; "a=2"] = inr d /\
          length d = length (filter (PyStr.contains_char "=") ["a=1"; "a=2"])).
Proof.
  split; [reflexivity|].
  intros (d & Hd & Hlen). vm_compute in Hd. injection Hd as <-.
  vm_compute in Hlen. discriminate.
Qed.

(** C8 (amended).  [parse_clarifications] never raises.  The mapping it
    returns has one entry per distinct key: a key is bound exactly when it
    is the text before the first ["="] of some argument, and then to the
    remainder of the last such argument, a remainder that may itself hold
    ["="].  Arguments without the separator add nothing: dropping them
    beforehand gives the same mapping. *)
Theorem parse_clarifications_spec args :
  exists d,
    parse_clarifications args = inr d
    /\ (forall k, dict_get k d = last_value k args)
    /\ NoDup (map fst d)
    /\ parse_clarifications (filter (PyStr.contains_char "=") args) = inr d
    /\ (forall arg k v,
           cut arg = Some (k, v) <->
           arg = (k ++ "=" ++ v)%string /\ PyStr.contains_char "=" k = false)
    /\ (forall arg, cut arg = None <-> PyStr.contains_char "=" arg = false).
Proof.
  destruct (parse_clarifications_from args [] (NoDup_nil _))
    as (d & Hd & Hnd & Hget).
  exists d. split; [|split; [|split; [|split; [|split]]]].
  - exact Hd.
  - intros k. rewrite Hget. now destruct (last_value k args).
  - exact Hnd.
  - rewrite parse_clarifications_filter. exact Hd.
  - intros arg k v. apply cut_some.
  - intros arg. pose proof (split1_cut arg) as Hc. split; intros H.
    + rewrite H in Hc. tauto.
    + destruct (cut arg) as [[k v]|]; [|reflexivity].
      destruct Hc as [_ Hc]. congruence.
Qed.

(** * Further properties of the driver *)

(** ** Leaving the polling loop for the result *)

(** X1.  On a snapshot whose status is [researching] the driver asks no
    question: it prints its five progress lines and fetches the result,
    once.  If the fetch succeeds it prints the four closing lines and
    returns the result; if it raises, the exception is the driver's and
    nothing more is printed.  Every complete run that starts with such a
    snapshot is of this form. *)
Theorem researching_goes_to_result h s tr v :
  status s = "researching" ->
  exec (drive h) (Obs (QueryGetStatus h) (inr (Some s)) :: tr) (Ret v) ->
  exists r,
    tr = [Obs (Print MResearchInProgress) tt; Obs (Print MPlanning) tt;
          Obs (Print MGathering) tt; Obs (Print MCompiling) tt;
          Obs (Print MPleaseWait) tt; Obs (Result h) r] ++
         match r with
         | inl _ => []
         | inr result =>
             [Obs (Print MCompleted) tt; Obs (Print MResultHeader) tt;
              Obs (Print MEquals) tt; Obs (Print (MResult result)) tt]
         end
    /\ v = match r with
           | inl e => inl e
           | inr result => inr (Some result)
           end.
Proof.
  intros Hs H.
  assert (PyStr.mem (status s) question_statuses = false) as E1
      by (rewrite Hs; reflexivity).
  assert (String.eqb (status s) "researching" = true) as E2
      by (rewrite Hs; reflexivity).
  inv_run H. destruct H as (r0 & tr1 & E & H).
  apply obs_cons_inj in E. destruct E as [<- <-]. cbn in H.
  apply exec_inv in H. repeat rewrite next_subst in H. cbn in H.
  rewrite E1, E2 in H. cbn in H.
  destruct H as ([] & tr2 & -> & H). cbn in H.
  inv_unit H. inv_unit H. inv_unit H. inv_unit H.
  inv_call H as [e|result].
  - inv_end H. exists (inl e). split; reflexivity.
  - inv_unit H. inv_unit H. inv_unit H. inv_unit H. inv_end H.
    exists (inr result). split; reflexivity.
Qed.

Lemma researching_goes_to_result_witness :
  exists r,
    [Obs (Print MResearchInProgress) tt; Obs (Print MPlanning) tt;
     Obs (Print MGathering) tt; Obs (Print MCompiling) tt;
     Obs (Print MPleaseWait) tt; Obs (Result 5) (inl "workflow failed")]
    = [Obs (Print MResearchInProgress) tt; Obs (Print MPlanning) tt;
       Obs (Print MGathering) tt; Obs (Print MCompiling) tt;
       Obs (Print MPleaseWait) tt; Obs (Result 5) r] ++
      match r with
      | inl _ => []
      | inr result =>
          [Obs (Print MCompleted) tt; Obs (Print MResultHeader) tt;
           Obs (Print MEquals) tt; Obs (Print (MResult result)) tt]
      end
    /\ @inl exn (option string) "workflow failed" =
       match r with
       | inl e => inl e
       | inr result => inr (Some result)
       end.
Proof.
  apply (researching_goes_to_result 5 researching_snapshot).
  - reflexivity.
  - apply (run_sound 20 _ [RStatus (inr (Some researching_snapshot));
                           RText (inl "workflow failed")]).
    vm_compute. reflexivity.
Defined.

(** X2.  On a snapshot whose status is [completed] the driver prints
    nothing and fetches the result from the run itself, not from the
    snapshot's [final_result]: a successful fetch is followed by the four
    closing lines and is what the driver returns, a fetch that raises ends
    the driver with its exception.  Every complete run that starts with
    such a snapshot is of this form. *)
Theorem completed_goes_to_result h s tr v :
  status s = "completed" ->
  exec (drive h) (Obs (QueryGetStatus h) (inr (Some s)) :: tr) (Ret v) ->
  exists r,
    tr = Obs (Result h) r ::
         match r with
         | inl _ => []
         | inr result =>
             [Obs (Print MCompleted) tt; Obs (Print MResultHeader) tt;
              Obs (Print MEquals) tt; Obs (Print (MResult result)) tt]
         end
    /\ v = match r with
           | inl e => inl e
           | inr result => inr (Some result)
           end.
Proof.
  intros Hs H.
  assert (PyStr.mem (status s) question_statuses = false) as E1
      by (rewrite Hs; reflexivity).
  assert (String.eqb (status s) "researching" = false) as E2
      by (rewrite Hs; reflexivity).
  assert (String.eqb (status s) "completed" = true) as E3
      by (rewrite Hs; reflexivity).
  inv_run H. destruct H as (r0 & tr1 & E & H).
  apply obs_cons_inj in E. destruct E as [<- <-]. cbn in H.
  apply exec_inv in H. repeat rewrite next_subst in H. cbn in H.
  rewrite E1, E2, E3 in H. cbn in H.
  destruct H as (r & tr2 & -> & H). cbn in r, H. destruct r as [e|result].
  - inv_end H. exists (inl e). split; reflexivity.
  - inv_unit H. inv_unit H. inv_unit H. inv_unit H. inv_end H.
    exists (inr result). split; reflexivity.
Qed.

Lemma completed_goes_to_result_witness :
  exists r,
    [Obs (Result 5) (inr "report"); Obs (Print MCompleted) tt;
     Obs (Print MResultHeader) tt; Obs (Print MEquals) tt;
     Obs (Print (MResult "report")) tt]
    = Obs (Result 5) r ::
      match r with
      | inl _ => []
      | inr result =>
          [Obs (Print MCompleted) tt; Obs (Print MResultHeader) tt;
           Obs (Print MEquals) tt; Obs (Print (MResult result)) tt]
      end
    /\ @inr exn (option string) (Some "report") =
       match r with
       | inl e => inl e
       | inr result => inr (Some result)
       end.
Proof.
  apply (completed_goes_to_result 5 completed_snapshot).
  - reflexivity.
  - apply (run_sound 20 _ [RStatus (inr (Some completed_snapshot));
                           RText (inr "report")]).
    vm_compute. reflexivity.
Defined.

(** ** Waiting *)

(** X3.  On a snapshot whose status is [pending] the driver prints that
    the research is starting, sleeps two time units and is back at the
    head of the polling loop; every complete run that starts with such a
    snapshot goes on this way. *)
Theorem pending_snapshot_waits h s :
  status s = "pending" ->
  exec (interactive_loop h)
       [Obs (QueryGetStatus h) (inr (Some s));
        Obs (Print MPendingStart) tt; Obs (Sleep 2) tt]
       (interactive_loop h)
  /\ forall tr v,
      exec (interactive_loop h)
           (Obs (QueryGetStatus h) (inr (Some s)) :: tr) (Ret v) ->
      exists tr',
        tr = Obs (Print MPendingStart) tt :: Obs (Sleep 2) tt :: tr' /\
        exec (interactive_loop h) tr' (Ret v).
Proof.
  intros Hs.
  assert (PyStr.mem (status s) question_statuses = false) as E1
      by (rewrite Hs; reflexivity).
  assert (String.eqb (status s) "researching" = false) as E2
      by (rewrite Hs; reflexivity).
  assert (String.eqb (status s) "completed" = false) as E3
      by (rewrite Hs; reflexivity).
  assert (String.eqb (status s) "pending" = true) as E4
      by (rewrite Hs; reflexivity).
  split.
  - apply loop_again. unfold poll.
    eapply (exec_bind_ok _ _ [_]);
      [apply (exec_await (QueryGetStatus h) (inr (Some s)))|].
    cbv beta iota. rewrite E1, E2, E3, E4.
    eapply (exec_bind_ok _ _ [_]); [apply exec_print|].
    eapply (exec_bind_ok _ _ [_] _ []); [apply exec_sleep|].
    apply exec_refl.
  - intros tr v H.
    inv_run H. destruct H as (r & tr1 & E & H).
    apply obs_cons_inj in E. destruct E as [<- <-]. cbn in H.
    apply exec_inv in H. repeat rewrite next_subst in H. cbn in H.
    rewrite E1, E2, E3, E4 in H. cbn in H.
    destruct H as ([] & tr2 & -> & H). cbn in H.
    inv_run H. destruct H as ([] & tr3 & -> & H). cbn in H.
    inv_run H. exists tr3. split; [reflexivity|exact H].
Qed.

Lemma pending_snapshot_waits_witness :
  exec (interactive_loop 5)
       [Obs (QueryGetStatus 5)
            (inr (Some (mkInteraction "pending" None None None)));
        Obs (Print MPendingStart) tt; Obs (Sleep 2) tt]
       (interactive_loop 5).
Proof.
  apply (pending_snapshot_waits 5 (mkInteraction "pending" None None None)).
  reflexivity.
Defined.

Lemma next_question_loop_done h s :
  get_current_question s = None ->
  next (question_loop h s) = SRet (inr None).
Proof.
  intros Hq. unfold question_loop, while. rewrite <- next_iter.
  rewrite next_bind, next_bind. unfold ask_question. rewrite Hq.
  reflexivity.
Qed.

Arguments question_loop : simpl never.

(** X4.  When the snapshot asks for clarifications but has no current
    question, the driver prints the two heading lines and polls again at
    once, without sleeping: every complete run that starts with such a
    snapshot continues with those two lines and a run of the polling
    loop. *)
Theorem no_question_polls_again_at_once h s :
  PyStr.mem (status s) question_statuses = true ->
  get_current_question s = None ->
  exec (interactive_loop h)
       [Obs (QueryGetStatus h) (inr (Some s));
        Obs (Print MNeedClarifications) tt; Obs (Print MDashes) tt]
       (interactive_loop h)
  /\ forall tr v,
      exec (interactive_loop h)
           (Obs (QueryGetStatus h) (inr (Some s)) :: tr) (Ret v) ->
      exists tr',
        tr = Obs (Print MNeedClarifications) tt
             :: Obs (Print MDashes) tt :: tr' /\
        exec (interactive_loop h) tr' (Ret v).
Proof.
  intros Hs Hq. split.
  - apply loop_again.
    apply (poll_questions h s [] (inr None) Hs).
    now apply question_loop_done.
  - intros tr v H.
    inv_run H. destruct H as (r & tr1 & E & H).
    apply obs_cons_inj in E. destruct E as [<- <-]. cbn in H.
    apply exec_inv in H. repeat rewrite next_subst in H. cbn in H.
    rewrite Hs in H. cbn in H.
    destruct H as ([] & tr2 & -> & H). cbn in H.
    inv_run H. destruct H as ([] & tr3 & -> & H). cbn in H.
    exists tr3. split; [reflexivity|].
    apply exec_inv in H.
    repeat first [rewrite next_subst in H | progress cbn in H
                 | progress unfold bind in H | rewrite next_bind in H].
    rewrite (next_question_loop_done h s Hq) in H. cbn in H. exact H.
Qed.

Lemma no_question_polls_again_at_once_witness :
  exec (interactive_loop 5)
       [Obs (QueryGetStatus 5) (inr (Some (budget_snapshot 2)));
        Obs (Print MNeedClarifications) tt; Obs (Print MDashes) tt]
       (interactive_loop 5).
Proof.
  apply (no_question_polls_again_at_once 5 (budget_snapshot 2));
    reflexivity.
Defined.

(** ** Exceptions that are not caught, and exceptions that are *)

(** X5.  The [except] clause of the polling loop is not protected
    itself: when the [try] block ends with an exception and the engine's
    [describe] raises in turn, the driver ends raising the exception of
    [describe], after printing the first one, without sleeping, polling
    or fetching a result. *)
Theorem describe_failure_is_fatal h tr e e' :
  exec (poll h) tr (raise e) ->
  exec (drive h)
       (tr ++ [Obs (Print (MError e)) tt; Obs (Describe h) (inl e')])
       (raise e').
Proof.
  intros H. unfold drive. apply exec_bind_raise.
  apply (exec_while_raise (fun _ : unit => _) tt).
  eapply exec_try_caught; [exact H|].
  unfold on_error.
  eapply (exec_bind_ok _ _ [_]); [apply exec_print|].
  apply exec_bind_raise. apply (exec_await (Describe h) (inl e')).
Qed.

Lemma describe_failure_is_fatal_witness :
  exec (drive 5)
       [Obs (QueryGetStatus 5) (inl "deadline exceeded");
        Obs (Print (MError "deadline exceeded")) tt;
        Obs (Describe 5) (inl "unavailable")]
       (raise "unavailable").
Proof.
  apply (describe_failure_is_fatal 5
           [Obs (QueryGetStatus 5) (inl "deadline exceeded")]).
  apply (run_sound 5 _ [RStatus (inl "deadline exceeded")]).
  vm_compute. reflexivity.
Defined.

(** X6.  An exception of [input] or of the termination signal, in any
    round of the inner loop, ends the [try] block of the polling
    iteration like an exception of a query: it is printed and the run is
    described.  So an exit word whose signal fails does not end the
    session when the engine says [RUNNING]: the driver sleeps two time
    units and polls again. *)
Theorem input_and_signal_errors_are_caught h s0 tr0 s q i e d :
  PyStr.mem (status s0) question_statuses = true ->
  exec (question_loop h s0) tr0 (question_loop h s) ->
  get_current_question s = Some q ->
  current_question_index s = Some i ->
  exec (interactive_loop h)
       (Obs (QueryGetStatus h) (inr (Some s0))
        :: Obs (Print MNeedClarifications) tt
        :: Obs (Print MDashes) tt
        :: (tr0 ++
            [Obs (Print (MQuestionOf (i + 1) (question_count s))) tt;
             Obs (Print (MQuestion q)) tt;
             Obs (Input "Your answer: ") (inl e)]) ++
        [Obs (Print (MError e)) tt; Obs (Describe h) (inr d)] ++
        if PyStr.mem d running_states
        then [Obs (Sleep 2) tt]
        else [Obs (Print (MTerminated d)) tt])
       (if PyStr.mem d running_states
        then interactive_loop h else ret Return)
  /\ forall raw,
      PyStr.mem (PyStr.lower (PyStr.strip raw)) exit_words = true ->
      exec (interactive_loop h)
           (Obs (QueryGetStatus h) (inr (Some s0))
            :: Obs (Print MNeedClarifications) tt
            :: Obs (Print MDashes) tt
            :: (tr0 ++
                [Obs (Print (MQuestionOf (i + 1) (question_count s))) tt;
                 Obs (Print (MQuestion q)) tt;
                 Obs (Input "Your answer: ") (inr raw);
                 Obs (Print MEnding) tt;
                 Obs (SignalEndWorkflow h) (inl e)]) ++
            [Obs (Print (MError e)) tt; Obs (Describe h) (inr d)] ++
            if PyStr.mem d running_states
            then [Obs (Sleep 2) tt]
            else [Obs (Print (MTerminated d)) tt])
           (if PyStr.mem d running_states
            then interactive_loop h else ret Return).
Proof.
  intros Hs0 Hrounds Hq Hi. split.
  - apply (loop_caught h
             (Obs (QueryGetStatus h) (inr (Some s0))
              :: Obs (Print MNeedClarifications) tt
              :: Obs (Print MDashes) tt :: tr0 ++ asked s q i (inl e))).
    apply (poll_questions h s0 _ (inl e) Hs0).
    eapply exec_trans; [exact Hrounds|].
    apply exec_while_raise.
    exact (ask_question_input_raises h s q i Hq Hi e).
  - intros raw Hx.
    apply (loop_caught h
             (Obs (QueryGetStatus h) (inr (Some s0))
              :: Obs (Print MNeedClarifications) tt
              :: Obs (Print MDashes) tt
              :: tr0 ++ asked s q i (inr raw) ++
                 [Obs (Print MEnding) tt;
                  Obs (SignalEndWorkflow h) (inl e)])).
    apply (poll_questions h s0 _ (inl e) Hs0).
    eapply exec_trans; [exact Hrounds|].
    apply exec_while_raise.
    exact (ask_question_exit h s q i raw Hq Hi (inl e) Hx).
Qed.

Lemma input_and_signal_errors_are_caught_witness :
  exec (interactive_loop 5)
       [Obs (QueryGetStatus 5) (inr (Some (budget_snapshot 0)));
        Obs (Print MNeedClarifications) tt;
        Obs (Print MDashes) tt;
        Obs (Print (MQuestionOf 1 2)) tt;
        Obs (Print (MQuestion "Budget?")) tt;
        Obs (Input "Your answer: ") (inr "quit");
        Obs (Print MEnding) tt;
        Obs (SignalEndWorkflow 5) (inl "unavailable");
        Obs (Print (MError "unavailable")) tt;
        Obs (Describe 5) (inr "RUNNING");
        Obs (Sleep 2) tt]
       (interactive_loop 5).
Proof.
  apply (proj2 (input_and_signal_errors_are_caught
                  5 (budget_snapshot 0) [] (budget_snapshot 0)
                  "Budget?" 0%Z "unavailable" "RUNNING"
                  eq_refl (exec_refl _) eq_refl eq_refl) "quit").
  reflexivity.
Defined.

(** X7.  [ensure_started] raises exactly when its status query or its
    start-research update raises, and with that exception, which is the
    last thing it observes; and since the driver calls it outside any
    [try], the driver then ends raising the same exception, with no
    polling at all. *)
Theorem ensure_started_failure_is_fatal c query wid trR h tr v :
  exec (resolve_or_start c wid) trR (ret h) ->
  exec (ensure_started h query) tr (Ret v) ->
  (forall e,
      v = inl e <->
      (exists pre, tr = pre ++ [Obs (QueryGetStatus h) (inl e)])
      \/ (exists pre, tr = pre ++ [Obs (UpdateStartResearch h query) (inl e)]))
  /\ (forall e,
         v = inl e ->
         exec (run_interactive_research_with_clarifications c query wid)
              (Obs (Print (MStarting query)) tt :: trR ++ tr) (raise e)).
Proof.
  intros HR H. split.
  - intros e. assert (Hruns := H). apply ensure_started_runs in Hruns.
    destruct Hruns as [(e0 & -> & ->)|[(r & Hr & -> & ->)
                                      |(r & u & Hr & -> & ->)]].
    + split.
      * intros [= ->]. left. now exists [].
      * intros [(pre & E)|(pre & E)];
          apply (app_inj_tail []) in E; destruct E as [_ E].
        -- apply obs_inj in E. congruence.
        -- apply obs_call_eq in E. discriminate.
    + split; [discriminate|].
      intros [(pre & E)|(pre & E)];
        apply (app_inj_tail []) in E; destruct E as [_ E].
      * apply obs_inj in E. discriminate.
      * apply obs_call_eq in E. discriminate.
    + split.
      * destruct u as [e0|s']; [|discriminate].
        intros [= ->]. right.
        now exists [Obs (QueryGetStatus h) (inr r);
                    Obs (Print (MInitiating query)) tt].
      * intros [(pre & E)|(pre & E)];
          apply (app_inj_tail [_; _]) in E; destruct E as [_ E].
        -- apply obs_call_eq in E. discriminate.
        -- apply obs_inj in E. now subst u.
  - intros e ->. unfold run_interactive_research_with_clarifications.
    eapply (exec_bind_ok _ _ [_]); [apply exec_print|].
    eapply exec_bind_ok; [exact HR|].
    apply exec_bind_raise. exact H.
Qed.

Lemma ensure_started_failure_is_fatal_witness :
  exec (run_interactive_research_with_clarifications 0 "surfing" "wf")
       (Obs (Print (MStarting "surfing")) tt
        :: absent_snapshot_run ++ [Obs (QueryGetStatus 6) (inl "timeout")])
       (raise "timeout").
Proof.
  refine (proj2 (ensure_started_failure_is_fatal
                   0 "surfing" "wf" absent_snapshot_run 6
                   [Obs (QueryGetStatus 6) (inl "timeout")] (inl "timeout")
                   _ _) "timeout" eq_refl).
  - apply (run_sound 20 _ [RHandle (inr 5); RStatus (inr None);
                           RClock 1700000000%Z; RHandle (inr 6)]).
    vm_compute. reflexivity.
  - apply (run_sound 5 _ [RStatus (inl "timeout")]).
    vm_compute. reflexivity.
Defined.

(** ** What [resolve_or_start] gives back *)

(** X8.  [resolve_or_start] raises only the exception of a failed start,
    right after printing it: an exception of the lookup or of the status
    query never reaches the caller, and the [RuntimeError] of line 64 is
    never raised.  The handle it returns is one the engine handed out,
    by the lookup or by the start. *)
Theorem resolve_or_start_outcomes c wid tr v :
  exec (resolve_or_start c wid) tr (Ret v) ->
  match v with
  | inl e =>
      exists pre id,
        tr = pre ++ [Obs (StartWorkflow c id task_queue) (inl e);
                     Obs (Print (MFailedStart e)) tt]
  | inr h =>
      In (Obs (GetWorkflowHandle c wid) (inr h)) tr
      \/ exists id, In (Obs (StartWorkflow c id task_queue) (inr h)) tr
  end.
Proof.
  intros H. apply resolve_or_start_runs in H.
  destruct H as [h s Hs|pre now h Hpre|pre now e Hpre].
  - left. simpl. tauto.
  - right. exists (unique_id wid now). apply in_or_app. right. simpl. tauto.
  - exists (pre ++ [Obs Time now;
                    Obs (Print (MStartingNew (unique_id wid now))) tt]),
           (unique_id wid now).
    now rewrite <- app_assoc.
Qed.

Lemma resolve_or_start_outcomes_witness :
  exists pre id,
    failed_start_run =
    pre ++ [Obs (StartWorkflow 0 id task_queue) (inl "unavailable");
            Obs (Print (MFailedStart "unavailable")) tt].
Proof.
  apply (resolve_or_start_outcomes 0 "wf" failed_start_run (inl "unavailable")).
  apply (run_sound 20 _ [RHandle (inl "not found");
                         RClock 1700000000%Z; RHandle (inl "unavailable")]).
  vm_compute. reflexivity.
Defined.

(** ** All the runs of the inner loop *)

(** X9.  The complete runs of the inner loop are exactly these: rounds
    that each show the current question, read an answer that is not an
    exit word and submit it, going on from the snapshot the update
    returns; ended by a snapshot without current question (the loop is
    over), by an exit word followed by the print and the signal (the
    function returns, or the signal's exception is raised), or by an
    [input] or an update that raises. *)
Theorem question_loop_complete_runs h s tr v :
  exec (question_loop h s) tr (Ret v) <-> question_run h s tr v.
Proof.
  split; [apply question_loop_runs|apply question_run_exec].
Qed.

(** ** Recognising the exit words *)

Lemma lstrip_padding pre x :
  all_space pre = true -> PyStr.lstrip (pre ++ x) = PyStr.lstrip x.
Proof.
  induction pre as [|c pre IH]; cbn [all_space append PyStr.lstrip];
    [reflexivity|].
  intros H. apply andb_prop in H. destruct H as [-> H]. auto.
Qed.

Lemma rstrip_all_space post :
  all_space post = true -> PyStr.rstrip post = "".
Proof.
  induction post as [|c post IH]; cbn [all_space PyStr.rstrip];
    [reflexivity|].
  intros H. apply andb_prop in H. destruct H as [Hc H].
  now rewrite (IH H), Hc.
Qed.

Lemma rstrip_padding w post :
  all_space post = true -> PyStr.rstrip (w ++ post) = PyStr.rstrip w.
Proof.
  intros H. induction w as [|c w IH]; cbn [append PyStr.rstrip].
  - now apply rstrip_all_space.
  - now rewrite IH.
Qed.

Lemma space_stays_space c :
  PyStr.isspace c = true -> PyStr.isspace (PyStr.lower_char c) = true.
Proof.
  destruct c as [[] [] [] [] [] [] [] []]; vm_compute; auto.
Qed.

Lemma lower_nil : PyStr.lower "" = "".
Proof. reflexivity. Qed.

Lemma lower_cons c s :
  PyStr.lower (String c s) = String (PyStr.lower_char c) (PyStr.lower s).
Proof. reflexivity. Qed.

(** A word that lower-cases to an exit word has no white space at
    either end, so stripping leaves it alone. *)
Lemma exit_word_is_stripped w :
  PyStr.mem (PyStr.lower w) exit_words = true -> PyStr.strip w = w /\ w <> "".
Proof.
  intros H. unfold PyStr.mem, exit_words in H.
  cbn [existsb] in H.
  assert (forall c x, PyStr.lower_char c = x -> PyStr.isspace x = false ->
                      PyStr.isspace c = false) as Hns.
  { intros c x <- Hx. destruct (PyStr.isspace c) eqn:E; [|reflexivity].
    apply space_stays_space in E. congruence. }
  repeat (apply orb_prop in H; destruct H as [H|H]); try discriminate;
    apply String.eqb_eq in H;
    repeat (destruct w as [|? w];
            rewrite ?lower_cons, ?lower_nil in H; try discriminate);
    injection H; clear H; intros;
    repeat match goal with
           | Hc : PyStr.lower_char _ = _ |- _ =>
               apply Hns in Hc; [|reflexivity]
           end;
    (split; [|discriminate]);
    unfold PyStr.strip; cbn [PyStr.lstrip PyStr.rstrip];
    repeat match goal with
           | E : PyStr.isspace _ = false |- _ =>
               rewrite E; cbn [PyStr.lstrip PyStr.rstrip]
           end;
    reflexivity.
Qed.

(** X10.  The exit words are recognised whatever their case and whatever
    white space surrounds them: if a word lower-cases to one of [exit],
    [quit], [end], [done], then so does the trimmed form of that word
    padded with white space on either side. *)
Theorem exit_words_ignore_case_and_padding pre w post :
  all_space pre = true ->
  all_space post = true ->
  PyStr.mem (PyStr.lower w) exit_words = true ->
  PyStr.strip (pre ++ w ++ post) = w
  /\ PyStr.mem (PyStr.lower (PyStr.strip (pre ++ w ++ post))) exit_words = true.
Proof.
  intros Hpre Hpost Hw.
  destruct (exit_word_is_stripped w Hw) as [Hstrip Hne].
  assert (PyStr.strip (pre ++ w ++ post) = w) as E.
  { unfold PyStr.strip in *. rewrite (lstrip_padding pre _ Hpre).
    destruct w as [|c w]; [congruence|].
    cbn [append PyStr.lstrip] in *.
    destruct (PyStr.isspace c) eqn:Ec.
    - (* a leading white space would have been stripped from [w] itself *)
      exfalso.
      assert (String.length (PyStr.rstrip (PyStr.lstrip w)) <= String.length w)
        as Hlen.
      { clear. assert (forall x, String.length (PyStr.rstrip x) <= String.length x) as Hr.
        { induction x as [|a x IH]; cbn [PyStr.rstrip String.length]; [lia|].
          destruct (PyStr.rstrip x); [destruct (PyStr.isspace a)|];
            cbn [String.length] in *; lia. }
        assert (forall x, String.length (PyStr.lstrip x) <= String.length x) as Hl.
        { induction x as [|a x IH]; cbn [PyStr.lstrip String.length]; [lia|].
          destruct (PyStr.isspace a); cbn [String.length]; lia. }
        specialize (Hr (PyStr.lstrip w)). specialize (Hl w). lia. }
      rewrite Hstrip in Hlen. cbn [String.length] in Hlen. lia.
    - change (String c (w ++ post)) with (String c w ++ post)%string.
      rewrite (rstrip_padding _ post Hpost). exact Hstrip. }
  split; [exact E|]. now rewrite E.
Qed.

Lemma exit_words_ignore_case_and_padding_witness :
  PyStr.strip ("  " ++ "QuIt" ++ " ") = "QuIt"
  /\ PyStr.mem (PyStr.lower (PyStr.strip ("  " ++ "QuIt" ++ " "))) exit_words
     = true.
Proof.
  apply (exit_words_ignore_case_and_padding "  " "QuIt" " "); reflexivity.
Defined.

(** ** Blank answers *)

Lemma rstrip_empty x : PyStr.rstrip x = "" -> all_space x = true.
Proof.
  induction x as [|c x IH]; cbn [PyStr.rstrip all_space]; [reflexivity|].
  destruct (PyStr.rstrip x); [|discriminate].
  destruct (PyStr.isspace c); [|discriminate]. auto.
Qed.

Lemma lstrip_all_space x : all_space (PyStr.lstrip x) = true -> all_space x = true.
Proof.
  induction x as [|c x IH]; cbn [PyStr.lstrip all_space]; [reflexivity|].
  destruct (PyStr.isspace c) eqn:E; cbn [all_space andb]; [exact IH|].
  rewrite E. discriminate.
Qed.

Lemma strip_empty_iff raw : PyStr.strip raw = "" <-> all_space raw = true.
Proof.
  unfold PyStr.strip. split.
  - intros H. now apply lstrip_all_space, rstrip_empty.
  - intros H. replace (PyStr.lstrip raw) with ""; [reflexivity|].
    induction raw as [|c raw IH]; cbn [all_space PyStr.lstrip] in *;
      [reflexivity|].
    apply andb_prop in H. destruct H as [-> H]. auto.
Qed.

(** X11.  An answer is trimmed to nothing exactly when it holds only
    white space (the empty answer included); such an answer is never an
    exit word, and the round submits ["No specific preference"] in its
    place, for the question index of the snapshot shown. *)
Theorem blank_answer_is_no_preference h s q i raw s' :
  get_current_question s = Some q ->
  current_question_index s = Some i ->
  (PyStr.strip raw = "" <-> all_space raw = true)
  /\ (all_space raw = true ->
      exec (question_loop h s)
           [Obs (Print (MQuestionOf (i + 1) (question_count s))) tt;
            Obs (Print (MQuestion q)) tt;
            Obs (Input "Your answer: ") (inr raw);
            Obs (UpdateProvideSingle h (Some i) "No specific preference")
                (inr s')]
           (question_loop h s')).
Proof.
  intros Hq Hi. split; [apply strip_empty_iff|].
  intros Hb. apply strip_empty_iff in Hb.
  pose proof (question_loop_next h s q i raw s' Hq Hi) as Hn.
  rewrite Hb in Hn. apply Hn. reflexivity.
Qed.

Lemma blank_answer_is_no_preference_witness :
  exec (question_loop 5 (budget_snapshot 0))
       [Obs (Print (MQuestionOf 1 2)) tt;
        Obs (Print (MQuestion "Budget?")) tt;
        Obs (Input "Your answer: ") (inr "  ");
        Obs (UpdateProvideSingle 5 (Some 0%Z) "No specific preference")
            (inr (budget_snapshot 1))]
       (question_loop 5 (budget_snapshot 1)).
Proof.
  apply (proj2 (blank_answer_is_no_preference
                  5 (budget_snapshot 0) "Budget?" 0%Z "  "
                  (budget_snapshot 1) eq_refl eq_refl)).
  reflexivity.
Defined.

(** ** More on [parse_clarifications] *)

Lemma dict_set_fresh k v d :
  PyStr.mem k (map fst d) = false -> dict_set k v d = d ++ [(k, v)].
Proof.
  unfold PyStr.mem. induction d as [|[k0 v0] d IH]; cbn [map fst existsb dict_set app].
  - reflexivity.
  - intros H. apply orb_false_elim in H. destruct H as [-> H].
    now rewrite (IH H).
Qed.

Lemma mem_false_iff k l : PyStr.mem k l = false <-> ~ In k l.
Proof.
  unfold PyStr.mem. split.
  - intros H Hin.
    assert (existsb (String.eqb k) l = true) as F.
    { apply existsb_exists. exists k. split; [exact Hin|apply String.eqb_refl]. }
    congruence.
  - intros H. destruct (existsb (String.eqb k) l) eqn:E; [|reflexivity].
    apply existsb_exists in E. destruct E as (x & Hx & Hk).
    apply String.eqb_eq in Hk. subst x. contradiction.
Qed.

Lemma cut_as_argument k v :
  PyStr.contains_char "=" k = false -> cut (as_argument (k, v)) = Some (k, v).
Proof. intros H. apply cut_some. split; [reflexivity|exact H]. Qed.

Lemma parse_step_cut responses arg :
  parse_step (inr responses) arg =
  match cut arg with
  | Some (k, v) => inr (dict_set k v responses)
  | None => inr responses
  end.
Proof.
  unfold parse_step. pose proof (split1_cut arg) as Hc.
  destruct (cut arg) as [[k v]|]; destruct Hc as [-> ->]; reflexivity.
Qed.

(** X12.  Printing a mapping as [KEY=VALUE] arguments and parsing them
    gives the mapping back, entries in the same order, provided no key
    holds ["="] (values may) and no key is repeated. *)
Theorem parse_clarifications_round_trip d :
  NoDup (map fst d) ->
  (forall kv, In kv d -> PyStr.contains_char "=" (fst kv) = false) ->
  parse_clarifications (map as_argument d) = inr d.
Proof.
  intros Hnd Hk. unfold parse_clarifications.
  enough (forall d0, NoDup (map fst (d0 ++ d)) ->
            fold_left parse_step (map as_argument d) (inr d0) = inr (d0 ++ d))
    as H by (apply (H [] Hnd)).
  clear Hnd. induction d as [|[k v] d IH]; intros d0 Hnd; cbn [map fold_left].
  - now rewrite app_nil_r.
  - rewrite parse_step_cut, cut_as_argument
      by (apply (Hk (k, v)); now left).
    rewrite dict_set_fresh.
    + rewrite IH.
      * now rewrite <- app_assoc.
      * intros kv Hin. apply Hk. now right.
      * now rewrite <- app_assoc.
    + apply mem_false_iff. rewrite map_app in Hnd. cbn [map fst] in Hnd.
      apply NoDup_remove_2 in Hnd. intros Hin. apply Hnd.
      apply in_or_app. now left.
Qed.

Lemma parse_clarifications_round_trip_witness :
  parse_clarifications
    (map as_argument [("question_0", "a=b"); ("question_1", "")])
  = inr [("question_0", "a=b"); ("question_1", "")].
Proof.
  apply parse_clarifications_round_trip.
  - repeat constructor; simpl; intuition discriminate.
  - intros kv [<-|[<-|[]]]; reflexivity.
Defined.

Lemma dict_set_in k v k' v' d :
  In (k, v) (dict_set k' v' d) -> In (k, v) d \/ (k, v) = (k', v').
Proof.
  induction d as [|[k0 v0] d IH]; cbn [dict_set In].
  - intros [H|[]]; auto.
  - destruct (String.eqb k' k0) eqn:E; cbn [In].
    + apply String.eqb_eq in E. subst k0. intuition auto.
    + intuition auto.
Qed.

Lemma parse_entries_from args : forall d0 d,
  fold_left parse_step args (inr d0) = inr d ->
  forall k v, In (k, v) d ->
    In (k, v) d0 \/ exists arg, In arg args /\ cut arg = Some (k, v).
Proof.
  induction args as [|arg args IH]; intros d0 d; cbn [fold_left].
  - intros [= <-]. auto.
  - rewrite parse_step_cut. intros Hd k v Hin.
    destruct (cut arg) as [[k' v']|] eqn:Hc;
      (destruct (IH _ _ Hd k v Hin) as [H|(a & Ha & Ha')];
       [|right; exists a; split; [now right|exact Ha']]).
    + apply dict_set_in in H. destruct H as [H|[= -> ->]]; [auto|].
      right. exists arg. split; [now left|exact Hc].
    + auto.
Qed.

Lemma parse_keys_from args : forall d0 d,
  fold_left parse_step args (inr d0) = inr d ->
  map fst d = fold_left see (keys_of args) (map fst d0).
Proof.
  unfold keys_of.
  induction args as [|arg args IH]; intros d0 d; cbn [fold_left collect map].
  - now intros [= <-].
  - rewrite parse_step_cut.
    destruct (cut arg) as [[k' v']|]; intros Hd; rewrite (IH _ _ Hd);
      cbn [map fst fold_left]; [|reflexivity].
    now rewrite dict_set_keys.
Qed.

Lemma see_length keys : forall acc,
  length (fold_left see keys acc) <= length acc + length keys.
Proof.
  induction keys as [|k keys IH]; intros acc; cbn [fold_left length]; [lia|].
  specialize (IH (see acc k)). unfold see in *.
  destruct (PyStr.mem k acc); [lia|]. rewrite length_app in IH.
  cbn [length] in IH. lia.
Qed.

Lemma keys_of_length args :
  length (keys_of args) = length (with_separator args).
Proof.
  unfold keys_of, with_separator.
  induction args as [|arg args IH]; cbn [collect filter map length];
    [reflexivity|].
  pose proof (split1_cut arg) as Hc.
  destruct (cut arg) as [[k v]|]; destruct Hc as [_ ->];
    cbn [map length]; auto.
Qed.

(** X13.  [parse_clarifications] invents nothing and keeps the order of
    the command line: every entry [(k, v)] of the mapping it returns is an
    argument [k=v] of the input whose [k] holds no ["="]; the keys stand
    in the order of their first appearance, each once (a later argument
    for the same key replaces the value, not the position); and there are
    no more entries than arguments with a separator. *)
Theorem parse_clarifications_entries args d :
  parse_clarifications args = inr d ->
  (forall k v, In (k, v) d ->
     In (k ++ "=" ++ v)%string args /\ PyStr.contains_char "=" k = false)
  /\ map fst d = first_seen (keys_of args)
  /\ length d <= length (with_separator args).
Proof.
  unfold parse_clarifications. intros Hd. split; [|split].
  - intros k v Hin.
    destruct (parse_entries_from _ _ _ Hd k v Hin) as [[]|(a & Ha & Hc)].
    apply cut_some in Hc. destruct Hc as [-> Hk]. auto.
  - apply (parse_keys_from _ _ _ Hd).
  - rewrite <- (length_map fst), (parse_keys_from _ _ _ Hd), <- keys_of_length.
    apply (see_length (keys_of args) []).
Qed.

Lemma parse_clarifications_entries_witness :
  (forall k v,
     In (k, v) [("question_0", "March"); ("question_1", "b")] ->
     In (k ++ "=" ++ v)%string
        ["question_0=a"; "note"; "question_1=b"; "question_0=March"]
     /\ PyStr.contains_char "=" k = false)
  /\ map fst [("question_0", "March"); ("question_1", "b")]
     = first_seen
         (keys_of ["question_0=a"; "note"; "question_1=b"; "question_0=March"])
  /\ length [("question_0", "March"); ("question_1", "b")]
     <= length
          (with_separator
             ["question_0=a"; "note"; "question_1=b"; "question_0=March"]).
Proof.
  apply (parse_clarifications_entries
           ["question_0=a"; "note"; "question_1=b"; "question_0=March"]).
  reflexivity.
Defined.

(** * The command line *)

Section CliExecFacts.

Context {R : Type}.
Implicit Types t : itree cliE R.

Lemma cli_exec_refl t : cli_exec t [] t.
Proof. now apply cli_exec_stop. Qed.

Lemma cli_exec_next_l t1 t2 tr t' :
  cli_next t1 = cli_next t2 -> cli_exec t1 tr t' -> cli_exec t2 tr t'.
Proof.
  intros E H. destruct H.
  - apply cli_exec_stop. congruence.
  - eapply cli_exec_tau; [|eassumption]. congruence.
  - eapply cli_exec_call; [|eassumption]. congruence.
Qed.

Lemma cli_exec_next_r t tr t1 t2 :
  cli_next t1 = cli_next t2 -> cli_exec t tr t1 -> cli_exec t tr t2.
Proof.
  intros E H. induction H.
  - apply cli_exec_stop. congruence.
  - eapply cli_exec_tau; eauto.
  - eapply cli_exec_call; eauto.
Qed.

Lemma cli_exec_trans t1 t2 t3 tr1 tr2 :
  cli_exec t1 tr1 t2 -> cli_exec t2 tr2 t3 -> cli_exec t1 (tr1 ++ tr2) t3.
Proof.
  intros H12 H23. induction H12; simpl.
  - eapply cli_exec_next_l; [symmetry|]; eassumption.
  - eapply cli_exec_tau; eauto.
  - eapply cli_exec_call; eauto.
Qed.

Lemma ccall_inj c (k1 k2 : cli_resp c -> itree cliE R) :
  CCall c k1 = CCall c k2 -> k1 = k2.
Proof.
  intros H. inversion H as [Hk].
  now apply Eqdep.EqdepTheory.inj_pair2 in Hk.
Qed.

(** Inversion of a run to completion, the case being found by computing
    the first node. *)
Lemma cli_exec_inv t tr v :
  cli_exec t tr (Ret v) ->
  match cli_next t with
  | CRet x => tr = [] /\ x = v
  | CTau t1 => cli_exec t1 tr (Ret v)
  | CCall c k =>
      exists r tr', tr = CObs c r :: tr' /\ cli_exec (k r) tr' (Ret v)
  end.
Proof.
  intros H. destruct (cli_next t) eqn:E.
  - inversion H; subst; try congruence.
    split; [reflexivity|]. cbn in *. congruence.
  - inversion H; subst; cbn in *; congruence.
  - inversion H; subst; cbn in *; try congruence.
    rewrite E in H0. assert (c0 = c) by congruence. subst c0.
    apply ccall_inj in H0. subst k0. eauto.
Qed.

End CliExecFacts.

Section CliCompose.

Context {A B : Type}.

Lemma cli_next_bind (m : itree cliE A) (k : A -> itree cliE B) :
  cli_next (ITree.bind m k) =
  match cli_next m with
  | CRet a => cli_next (k a)
  | CTau m' => CTau (ITree.bind m' k)
  | CCall c km => CCall c (fun r => ITree.bind (km r) k)
  end.
Proof.
  unfold cli_next. rewrite observe_bind.
  destruct (observe m) as [a|m'|X e km]; try reflexivity.
  destruct e. reflexivity.
Qed.

Lemma cli_next_subst (m : itree cliE A) (k : A -> itree cliE B) :
  cli_next (ITree.subst k m) =
  match cli_next m with
  | CRet a => cli_next (k a)
  | CTau m' => CTau (ITree.bind m' k)
  | CCall c km => CCall c (fun r => ITree.bind (km r) k)
  end.
Proof. apply cli_next_bind. Qed.

Lemma cli_exec_subst (m m' : itree cliE A) (k : A -> itree cliE B) tr :
  cli_exec m tr m' -> cli_exec (ITree.bind m k) tr (ITree.bind m' k).
Proof.
  induction 1.
  - apply cli_exec_stop. rewrite !cli_next_bind. now rewrite H.
  - eapply cli_exec_tau; [|eassumption]. rewrite cli_next_bind, H. reflexivity.
  - eapply cli_exec_call; [rewrite cli_next_bind, H; reflexivity|].
    exact IHcli_exec.
Qed.

Lemma cli_exec_subst_inv (k : A -> itree cliE B) t tr v :
  cli_exec t tr (Ret v) ->
  forall m, cli_next t = cli_next (ITree.bind m k) ->
  exists x tr1 tr2,
    tr = (tr1 ++ tr2)%list /\ cli_exec m tr1 (Ret x)
    /\ cli_exec (k x) tr2 (Ret v).
Proof.
  intros H. remember (Ret v) as t' eqn:Et'. induction H; intros m Em; subst t'.
  - rewrite cli_next_bind in Em. destruct (cli_next m) as [a|m'|c km] eqn:Om.
    + exists a, [], []. repeat split.
      * apply cli_exec_stop. exact Om.
      * apply cli_exec_stop. congruence.
    + rewrite H in Em. cbn in Em. congruence.
    + rewrite H in Em. cbn in Em. congruence.
  - rewrite cli_next_bind in Em. destruct (cli_next m) as [a|m'|c km] eqn:Om.
    + exists a, [], tr. repeat split.
      * apply cli_exec_stop. exact Om.
      * eapply cli_exec_tau; [|eassumption]. congruence.
    + rewrite H in Em. injection Em as ->.
      destruct (IHcli_exec eq_refl m' eq_refl)
        as (x & tr1 & tr2 & -> & H1 & H2).
      exists x, tr1, tr2. repeat split; auto. eapply cli_exec_tau; eauto.
    + congruence.
  - rewrite cli_next_bind in Em. destruct (cli_next m) as [a|m'|c' km] eqn:Om.
    + exists a, [], (CObs c r :: tr). repeat split.
      * apply cli_exec_stop. exact Om.
      * eapply cli_exec_call; [|eassumption]. congruence.
    + congruence.
    + rewrite H in Em. assert (c = c') by congruence. subst c'.
      apply ccall_inj in Em. subst k0.
      destruct (IHcli_exec eq_refl (km r) eq_refl)
        as (x & tr1 & tr2 & -> & H1 & H2).
      exists x, (CObs c r :: tr1), tr2. repeat split; auto.
      eapply cli_exec_call; eauto.
Qed.

End CliCompose.

(** *** The driver, run from the command line *)

Section Within.

Context {R : Type}.

Lemma cli_next_within (t : itree driverE R) :
  cli_next (translate lift t) =
  match next t with
  | SRet v => CRet v
  | STau t' => CTau (translate lift t')
  | SCall c k => CCall (Driver c) (fun r => translate lift (k r))
  end.
Proof.
  unfold cli_next, next.
  change (observe (translate lift t))
    with (observe (translateF lift (fun t => translate lift t) (observe t))).
  destruct (observe t) as [v|t'|X e k]; try reflexivity.
  destruct e. reflexivity.
Qed.

Lemma within_exec (t t' : itree driverE R) tr :
  exec t tr t' ->
  cli_exec (translate lift t) (map lift_obs tr) (translate lift t').
Proof.
  induction 1; cbn [map lift_obs].
  - apply cli_exec_stop. rewrite !cli_next_within. now rewrite H.
  - eapply cli_exec_tau; [|eassumption]. now rewrite cli_next_within, H.
  - eapply cli_exec_call; [now rewrite cli_next_within, H|]. exact IHexec.
Qed.

Lemma within_exec_inv (t0 : itree cliE R) tr v :
  cli_exec t0 tr (Ret v) ->
  forall t, cli_next t0 = cli_next (translate lift t) ->
  exists tr0, tr = map lift_obs tr0 /\ exec t tr0 (Ret v).
Proof.
  intros H. remember (Ret v) as t' eqn:Et'.
  induction H; intros t2 E; subst t'; rewrite cli_next_within in E.
  - destruct (next t2) as [x|t2'|c k] eqn:N.
    + exists []. split; [reflexivity|]. apply exec_stop.
      rewrite H in E. cbn in E. rewrite N. cbn. congruence.
    + rewrite H in E. cbn in E. congruence.
    + rewrite H in E. cbn in E. congruence.
  - destruct (next t2) as [x|t2'|c k] eqn:N; try congruence.
    rewrite H in E. injection E as ->.
    destruct (IHcli_exec eq_refl t2' eq_refl) as (tr0 & -> & H2).
    exists tr0. split; [reflexivity|]. eapply exec_tau; eauto.
  - destruct (next t2) as [x|t2'|c' k'] eqn:N; try congruence.
    rewrite H in E. assert (c = Driver c') by congruence. subst c.
    apply ccall_inj in E. subst k.
    destruct (IHcli_exec eq_refl (k' r) eq_refl) as (tr0 & -> & H2).
    exists (Obs c' r :: tr0). split; [reflexivity|].
    eapply exec_call; eauto.
Qed.

End Within.

(** One step of a run of the command line, forwards and backwards. *)
Tactic Notation "cli_call" :=
  eapply cli_exec_call; [cbn; reflexivity|]; cbn.
Tactic Notation "cli_stop" :=
  apply cli_exec_stop; cbn; reflexivity.
Tactic Notation "cli_inv" hyp(H) :=
  apply cli_exec_inv in H; cbn in H.
Tactic Notation "cli_inv_call" hyp(H) "as" simple_intropattern(pat) :=
  apply cli_exec_inv in H; cbn in H;
  let E := fresh "E" in
  destruct H as (reply & ? & E & H); cbn in reply; revert reply E H;
  intros pat E H; match type of E with ?tr = _ => subst tr end; cbn in H.
Ltac cli_inv_end H :=
  apply cli_exec_inv in H; cbn in H;
  match type of H with _ /\ _ => destruct H as [-> <-] end.


Lemma cobs_cons_inj c (r1 r2 : cli_resp c) (tr1 tr2 : list cli_obs) :
  CObs c r1 :: tr1 = CObs c r2 :: tr2 -> r1 = r2 /\ tr1 = tr2.
Proof.
  intros H. injection H as H1 H2. split; [|assumption].
  now apply Eqdep.EqdepTheory.inj_pair2 in H1.
Qed.

Ltac cli_unwind H :=
  repeat first
    [ cli_inv_end H
    | cli_inv_call H as [] ].

(** [cli_as H t]: the run [H] seen as a run of [t], a program with the
    same first node. *)
Ltac cli_as H t :=
  match type of H with
  | cli_exec _ ?tr ?t' =>
      let H' := fresh in
      assert (H' : cli_exec t tr t');
      [eapply cli_exec_next_l; [|exact H]|clear H; rename H' into H]
  end.

(** *** [get_workflow_status] and [send_clarifications] *)

Lemma status_run_complete c wid tr v :
  cli_exec (get_workflow_status c wid) tr (Ret v) ->
  status_run c wid tr /\ v = inr tt.
Proof.
  intros H. unfold get_workflow_status in H.
  cli_inv_call H as [e|h].
  - cli_unwind H. split; [constructor|reflexivity].
  - cli_inv_call H as [e|[s|]].
    + cli_unwind H. split; [constructor|reflexivity].
    + cli_inv_call H as [].
      destruct s as [st qs i fr].
      destruct qs as [[|q qs]|], fr as [[|ch r]|]; cbn in H; cli_unwind H;
        (split; [|reflexivity]);
        match goal with
        | |- context [@Some ResearchInteraction ?s] =>
            exact (status_shown c wid h s)
        end.
    + cli_unwind H. split; [constructor|reflexivity].
Qed.

Lemma status_run_exec c wid tr :
  status_run c wid tr ->
  cli_exec (get_workflow_status c wid) tr (Ret (inr tt)).
Proof.
  intros H. unfold get_workflow_status.
  destruct H as [e|h e|h|h s].
  - cli_call. cli_call. cli_stop.
  - cli_call. cli_call. cli_call. cli_stop.
  - cli_call. cli_call. cli_call. cli_stop.
  - destruct s as [st qs i fr]. unfold status_lines.
    destruct qs as [[|q qs]|], fr as [[|ch r]|]; cbn;
      repeat cli_call; cli_stop.
Qed.

Lemma status_run_read_only c wid tr :
  status_run c wid tr -> forallb read_only (cli_calls tr) = true.
Proof.
  intros H. destruct H as [e|h e|h|h s]; try reflexivity.
  unfold status_lines.
  destruct (clarification_questions s) as [[|q qs]|],
           (final_result s) as [[|ch r]|]; reflexivity.
Qed.

Lemma send_run_complete c wid d tr v :
  cli_exec (send_clarifications c wid d) tr (Ret v) ->
  send_run c wid d tr /\ v = inr tt.
Proof.
  intros H. unfold send_clarifications in H.
  cli_inv_call H as [e|h].
  - cli_unwind H. split; [constructor|reflexivity].
  - cli_inv_call H as [e|s]; cli_unwind H; split; constructor.
Qed.

Lemma send_run_exec c wid d tr :
  send_run c wid d tr ->
  cli_exec (send_clarifications c wid d) tr (Ret (inr tt)).
Proof.
  intros H. unfold send_clarifications.
  destruct H; repeat cli_call; cli_stop.
Qed.

Arguments dispatch : simpl never.
Arguments get_workflow_status : simpl never.
Arguments send_clarifications : simpl never.
Arguments query_mode : simpl never.
Arguments prompt_mode : simpl never.

(** *** [main]: the connection *)

Lemma main_complete args tr v :
  cli_exec (main args) tr (Ret v) ->
  (exists e,
      tr = [CObs (Connect server) (inl e);
            said (LConnectFailed e); said LConnectHint]
      /\ v = inr tt)
  \/ (exists c tr',
         tr = CObs (Connect server) (inr c) :: said LConnected :: tr'
         /\ cli_exec (dispatch c args) tr' (Ret v)).
Proof.
  intros H. unfold main, connect in H.
  cli_inv_call H as [e|c].
  - cli_unwind H. left. exists e. split; reflexivity.
  - cli_inv_call H as []. right. exists c. eexists. split; [reflexivity|].
    eapply cli_exec_next_l; [|exact H]. reflexivity.
Qed.

Lemma main_connected args c tr t' :
  cli_exec (dispatch c args) tr t' ->
  cli_exec (main args)
           (CObs (Connect server) (inr c) :: said LConnected :: tr) t'.
Proof.
  intros H. unfold main, connect. cli_call. cli_call.
  eapply cli_exec_next_l; [|exact H]. reflexivity.
Qed.

Lemma main_not_connected args e :
  cli_exec (main args)
           [CObs (Connect server) (inl e);
            said (LConnectFailed e); said LConnectHint]
           (Ret (inr tt)).
Proof. unfold main, connect. repeat cli_call. cli_stop. Qed.

(** [main], mode by mode: what is left to run once connected. *)
Lemma main_by_mode args (mode : Client -> cli_M unit) :
  (forall c, cli_next (dispatch c args) = cli_next (mode c)) ->
  forall tr v,
    cli_exec (main args) tr (Ret v) <->
    (exists e,
        tr = [CObs (Connect server) (inl e);
              said (LConnectFailed e); said LConnectHint]
        /\ v = inr tt)
    \/ (exists c tr',
           tr = CObs (Connect server) (inr c) :: said LConnected :: tr'
           /\ cli_exec (mode c) tr' (Ret v)).
Proof.
  intros Hm tr v. split.
  - intros H. destruct (main_complete _ _ _ H) as [?|(c & tr' & -> & H')];
      [now left|].
    right. exists c, tr'. split; [reflexivity|].
    eapply cli_exec_next_l; [apply Hm|exact H'].
  - intros [(e & -> & ->)|(c & tr' & -> & H')].
    + apply main_not_connected.
    + apply main_connected.
      eapply cli_exec_next_l; [symmetry; apply Hm|exact H'].
Qed.

(** *** The driver awaited by [main] *)

Lemma awaited_complete {A} (m : M A) tr v :
  cli_exec (within m ;; cli_ret tt)%cli tr (Ret v) ->
  exists tr0 v0,
    tr = map lift_obs tr0 /\ exec m tr0 (Ret v0) /\ v = discard v0.
Proof.
  intros H. unfold cli_bind in H.
  destruct (cli_exec_subst_inv _ _ _ _ H (within m) eq_refl)
    as (x & tr1 & tr2 & -> & H1 & H2).
  destruct (within_exec_inv _ _ _ H1 m eq_refl) as (tr0 & -> & H0).
  exists tr0, x. destruct x as [e|a]; cli_inv_end H2;
    rewrite app_nil_r; auto.
Qed.

Lemma awaited_exec {A} (m : M A) tr0 v0 :
  exec m tr0 (Ret v0) ->
  cli_exec (within m ;; cli_ret tt)%cli (map lift_obs tr0) (Ret (discard v0)).
Proof.
  intros H. unfold cli_bind. apply within_exec in H.
  eapply cli_exec_next_r; [|apply cli_exec_subst; exact H].
  destruct v0; reflexivity.
Qed.

Lemma query_mode_complete c args q tr v :
  cli_exec (query_mode c args q) tr (Ret v) <->
  exists pre wid tr0 v0,
    tr = pre ++ map lift_obs tr0
    /\ session args pre wid
    /\ exec (run_interactive_research_with_clarifications c q wid)
            tr0 (Ret v0)
    /\ v = discard v0.
Proof.
  unfold query_mode. split.
  - intros H. destruct (args_new_session args) eqn:En.
    + cli_inv_call H as now. cli_inv_call H as [].
      cli_as H (within (run_interactive_research c q
                          (unique_id (args_workflow_id args) now)) ;;
                cli_ret tt)%cli; [reflexivity|].
      destruct (awaited_complete _ _ _ H) as (tr0 & v0 & -> & H0 & ->).
      eexists [_; _], _, tr0, v0. repeat split; [|exact H0].
      now apply session_new.
    + cli_as H (within (run_interactive_research c q (args_workflow_id args)) ;;
                cli_ret tt)%cli; [reflexivity|].
      destruct (awaited_complete _ _ _ H) as (tr0 & v0 & -> & H0 & ->).
      exists [], (args_workflow_id args), tr0, v0. repeat split; [|exact H0].
      now apply session_same.
  - intros (pre & wid & tr0 & v0 & -> & Hs & H0 & ->).
    destruct Hs as [En|now En]; rewrite En.
    + eapply cli_exec_next_l; [|apply awaited_exec; exact H0]. reflexivity.
    + cbn [app]. cli_call. cli_call.
      eapply cli_exec_next_l; [|apply awaited_exec; exact H0]. reflexivity.
Qed.

Lemma prompt_mode_complete c args tr v :
  cli_exec (prompt_mode c args) tr (Ret v) <->
  exists r rest,
    tr = said LBanner :: said LRule
         :: CObs (Driver (Input "Enter your research query: ")) r :: rest
    /\ prompt_outcome c args r rest v.
Proof.
  unfold prompt_mode, prompt_outcome. split.
  - intros H. cli_inv_call H as []. cli_inv_call H as [].
    cli_inv_call H as [e|raw].
    + cli_inv_end H. exists (inl e), []. auto.
    + exists (inr raw). eexists. split; [reflexivity|].
      destruct (all_space raw) eqn:Eb.
      * apply strip_empty_iff in Eb.
        cli_as H (say LEmptyQuery ;; cli_ret tt)%cli.
        { repeat rewrite cli_next_subst. cbn. rewrite Eb. reflexivity. }
        cli_unwind H. auto.
      * destruct (PyStr.strip raw) as [|ch q] eqn:Es.
        { apply strip_empty_iff in Es. congruence. }
        apply awaited_complete.
        eapply cli_exec_next_l; [|exact H].
        repeat rewrite cli_next_subst. cbn. rewrite Es. reflexivity.
  - intros (r & rest & -> & Hr). cli_call. cli_call. cli_call.
    destruct r as [e|raw].
    + destruct Hr as [-> ->]. cli_stop.
    + destruct (all_space raw) eqn:Eb.
      * destruct Hr as [-> ->]. apply strip_empty_iff in Eb.
        eapply cli_exec_next_l
          with (t1 := (say LEmptyQuery ;; cli_ret tt)%cli).
        { repeat rewrite cli_next_subst. cbn. rewrite Eb. reflexivity. }
        cli_call. cli_stop.
      * destruct Hr as (tr0 & v0 & -> & H0 & ->).
        destruct (PyStr.strip raw) as [|ch q] eqn:Es.
        { apply strip_empty_iff in Es. congruence. }
        eapply cli_exec_next_l; [|apply awaited_exec; exact H0].
        repeat rewrite cli_next_subst. cbn. rewrite Es. reflexivity.
Qed.

(** *** What a program may call *)

Section Only.

Variable P : call -> bool.

Lemma only_tau {R} (t t1 : itree driverE R) :
  next t = STau t1 -> only P t -> only P t1.
Proof.
  intros E H tr t' Ht. apply (H tr t'). eapply exec_tau; eassumption.
Qed.

Lemma only_call {R} (t : itree driverE R) c k r :
  next t = SCall c k -> only P t -> P c = true /\ only P (k r).
Proof.
  intros E H. split.
  - specialize (H [Obs c r] (k r)). cbn in H.
    rewrite andb_true_r in H. apply H.
    eapply exec_call; [exact E|apply exec_refl].
  - intros tr t' Ht. specialize (H (Obs c r :: tr) t'). cbn in H.
    apply andb_prop in H; [tauto|].
    eapply exec_call; eassumption.
Qed.

Lemma only_Ret {R} (v : R) : only P (Ret v : itree driverE R).
Proof.
  intros tr t' H. inversion H; subst; cbn in *; congruence.
Qed.

Lemma only_bind_from {A B} (k : A -> itree driverE B) t tr t' :
  exec t tr t' ->
  forall m, next t = next (ITree.bind m k) ->
  only P m -> (forall x, only P (k x)) ->
  forallb P (calls tr) = true.
Proof.
  intros H. induction H as [t t' E|t t1 tr t' E H IH|t c k0 r tr t' E H IH];
    intros m Em Hm Hk'.
  - reflexivity.
  - rewrite next_bind in Em. destruct (next m) as [a|m'|c km] eqn:Om.
    + apply (Hk' a tr t'). eapply exec_next_l; [exact Em|].
      eapply exec_tau; eassumption.
    + rewrite E in Em. injection Em as ->.
      apply (IH m' eq_refl); [|exact Hk']. eapply only_tau; eassumption.
    + congruence.
  - rewrite next_bind in Em. destruct (next m) as [a|m'|c' km] eqn:Om.
    + apply (Hk' a (Obs c r :: tr) t').
      eapply exec_next_l; [exact Em|].
      eapply exec_call; eassumption.
    + congruence.
    + rewrite E in Em. assert (c = c') by congruence. subst c'.
      apply scall_inj in Em. subst k0.
      destruct (only_call _ _ _ r Om Hm) as [Hc Hr].
      cbn. rewrite Hc. cbn. apply (IH (km r) eq_refl Hr Hk').
Qed.

Lemma only_bind {A B} (m : itree driverE A) (k : A -> itree driverE B) :
  only P m -> (forall x, only P (k x)) -> only P (ITree.bind m k).
Proof.
  intros Hm Hk tr t' H. eapply only_bind_from; eauto.
Qed.

Lemma only_iter_from {I R} (body : I -> itree driverE (I + R)) t tr t' :
  exec t tr t' ->
  (forall i, only P (body i)) ->
  forall m,
    next t = next (ITree.bind m (fun lr =>
                     match lr with
                     | inl l => Tau (ITree.iter body l)
                     | inr r => Ret r
                     end)) ->
    only P m ->
    forallb P (calls tr) = true.
Proof.
  intros H Hb. induction H as [t t' E|t t1 tr t' E H IH|t c k0 r tr t' E H IH];
    intros m Em Hm.
  - reflexivity.
  - rewrite next_bind in Em. destruct (next m) as [[l|x]|m'|c km] eqn:Om.
    + cbn in Em. rewrite E in Em. injection Em as ->.
      apply (IH (body l)); [|apply Hb]. symmetry. apply next_iter.
    + cbn in Em. congruence.
    + rewrite E in Em. injection Em as ->.
      apply (IH m' eq_refl). eapply only_tau; eassumption.
    + congruence.
  - rewrite next_bind in Em. destruct (next m) as [[l|x]|m'|c' km] eqn:Om.
    + cbn in Em. congruence.
    + cbn in Em. congruence.
    + congruence.
    + rewrite E in Em. assert (c = c') by congruence. subst c'.
      apply scall_inj in Em. subst k0.
      destruct (only_call _ _ _ r Om Hm) as [Hc Hr].
      cbn. rewrite Hc. cbn. apply (IH (km r) eq_refl Hr).
Qed.

Lemma only_iter {I R} (body : I -> itree driverE (I + R)) i :
  (forall i, only P (body i)) -> only P (ITree.iter body i).
Proof.
  intros Hb tr t' H. eapply only_iter_from; [exact H|exact Hb| |apply Hb].
  symmetry. apply next_iter.
Qed.

Lemma only_ret {A} (a : A) : only P (ret a).
Proof. apply only_Ret. Qed.

Lemma only_raise {A} e : only P (raise e : M A).
Proof. apply only_Ret. Qed.

Lemma only_mbind {A B} (m : M A) (k : A -> M B) :
  only P m -> (forall a, only P (k a)) -> only P (bind m k).
Proof.
  intros Hm Hk. apply only_bind; [exact Hm|].
  intros [e|a]; [apply only_Ret|apply Hk].
Qed.

Lemma only_try {A} (m : M A) (h : exn -> M A) :
  only P m -> (forall e, only P (h e)) -> only P (try_catch m h).
Proof.
  intros Hm Hh. apply only_bind; [exact Hm|].
  intros [e|a]; [apply Hh|apply only_Ret].
Qed.

Lemma only_while {I A} (body : I -> M (I + A)) i :
  (forall i, only P (body i)) -> only P (while body i).
Proof.
  intros Hb. apply only_iter. intros j. apply only_bind; [apply Hb|].
  intros [e|[l|x]]; apply only_Ret.
Qed.

Lemma only_await c : P c = true -> only P (await c).
Proof.
  intros Hc tr t' H. remember (await c) as t eqn:Et.
  destruct H as [? ? E|? ? ? ? E H|? c0 k r tr ? E H]; subst t.
  - reflexivity.
  - cbn in E. discriminate.
  - cbn in E. assert (c = c0) by (inversion E; reflexivity). subst c0.
    apply scall_inj in E. subst k. cbn. rewrite Hc.
    exact (only_Ret r tr _ H).
Qed.

Lemma only_perform {A} (t : itree driverE A) : only P t -> only P (perform t).
Proof.
  intros H. unfold perform, ITree.map. apply only_bind; [exact H|].
  intros x. apply only_Ret.
Qed.

End Only.

Ltac only_step :=
  cbv zeta;
  first
    [ apply only_ret
    | apply only_raise
    | apply only_perform
    | match goal with
      | |- only ?P (await ?c) =>
          apply (only_await P c); cbn [after_start];
          rewrite ?Nat.eqb_refl; reflexivity
      end
    | apply only_mbind; [|intros ?]
    | apply only_try; [|intros ?]
    | apply only_while; intros ?
    | match goal with
      | |- only _ (match ?x with _ => _ end) => destruct x
      end ].

Lemma interactive_loop_only h : only (after_start h) (interactive_loop h).
Proof.
  unfold interactive_loop, poll, on_error, question_loop, ask_question,
    print, sleep.
  repeat only_step.
Qed.

Lemma await_final_result_only h :
  only (after_start h) (await_final_result h).
Proof. unfold await_final_result, print. repeat only_step. Qed.

Lemma drive_only h : only (after_start h) (drive h).
Proof.
  unfold drive. apply only_mbind; [apply interactive_loop_only|].
  intros [|]; [apply await_final_result_only|apply only_ret].
Qed.

(** *** The complete runs of the driver, piece by piece *)

Lemma print_complete m tr (v : exn + unit) :
  exec (print m) tr (Ret v) -> tr = [Obs (Print m) tt] /\ v = inr tt.
Proof. intros H. inv_unit H. inv_end H. auto. Qed.

Lemma driver_complete c q wid tr v :
  exec (run_interactive_research_with_clarifications c q wid) tr (Ret v) ->
  exists trR r,
    resolve_run c wid trR r
    /\ match r with
       | inl e => tr = Obs (Print (MStarting q)) tt :: trR /\ v = inl e
       | inr h =>
           exists trE vE trD,
             tr = Obs (Print (MStarting q)) tt :: trR ++ trE ++ trD
             /\ exec (ensure_started h q) trE (Ret vE)
             /\ match vE with
                | inl e => trD = [] /\ v = inl e
                | inr _ => exec (drive h) trD (Ret v)
                end
       end.
Proof.
  intros H. unfold run_interactive_research_with_clarifications in H.
  apply exec_bind_inv in H.
  destruct H as [(e & H & _)|(u & tr1 & tr2 & -> & H1 & H)].
  { apply print_complete in H. destruct H as [_ H]. discriminate. }
  apply print_complete in H1. destruct H1 as [-> _]. cbn [app].
  apply exec_bind_inv in H.
  destruct H as [(e & H & ->)|(h & trR & tr3 & -> & HR & H)].
  { exists tr2, (inl e). split; [now apply resolve_or_start_runs|auto]. }
  exists trR, (inr h). split; [now apply resolve_or_start_runs|].
  apply exec_bind_inv in H.
  destruct H as [(e & H & ->)|(u' & trE & trD & -> & HE & H)].
  - exists tr3, (inl e), []. rewrite app_nil_r. auto.
  - exists trE, (inr u'), trD. auto.
Qed.

Lemma starts_app tr1 tr2 : starts (tr1 ++ tr2) = starts tr1 ++ starts tr2.
Proof. unfold starts, calls. now rewrite map_app, filter_app. Qed.

Lemma after_start_quiet h tr :
  forallb (after_start h) (calls tr) = true ->
  starts tr = [] /\ submissions tr = [].
Proof.
  induction tr as [|[c r] tr IH]; [auto|].
  cbn [calls map call_of forallb]. intros H.
  apply andb_prop in H. destruct H as [Hc H].
  destruct (IH H) as [Hs Hq]. unfold starts, submissions in *.
  destruct c; try discriminate; cbn; auto.
Qed.

Lemma lookup_run_quiet c wid pre :
  lookup_run c wid pre -> starts pre = [] /\ submissions pre = [].
Proof. intros H. destruct H; auto. Qed.

Lemma resolve_run_calls c wid trR r :
  resolve_run c wid trR r ->
  (starts trR = []
   \/ exists now, starts trR = [StartWorkflow c (unique_id wid now) task_queue])
  /\ submissions trR = [].
Proof.
  intros H. destruct H as [h s Hs|pre now h Hpre|pre now e Hpre].
  - auto.
  - destruct (lookup_run_quiet _ _ _ Hpre) as [Hs Hq].
    rewrite starts_app, submissions_app, Hs, Hq. split; [|reflexivity].
    right. exists now. reflexivity.
  - destruct (lookup_run_quiet _ _ _ Hpre) as [Hs Hq].
    rewrite starts_app, submissions_app, Hs, Hq. split; [|reflexivity].
    right. exists now. reflexivity.
Qed.

Lemma ensure_started_calls h q tr v :
  exec (ensure_started h q) tr (Ret v) ->
  starts tr = []
  /\ (submissions tr = [] \/ submissions tr = [UpdateStartResearch h q]).
Proof.
  intros H. apply ensure_started_runs in H.
  destruct H as [(e & -> & _)|[(r & _ & -> & _)|(r & u & _ & -> & _)]]; auto.
Qed.

(** A complete run of the driver: its first line, a run of
    [resolve_or_start], and a rest that starts nothing and submits the
    query once at most. *)
Lemma driver_pieces c q wid tr v :
  exec (run_interactive_research_with_clarifications c q wid) tr (Ret v) ->
  exists trR r rest,
    tr = [Obs (Print (MStarting q)) tt] ++ trR ++ rest
    /\ resolve_run c wid trR r
    /\ starts rest = []
    /\ (submissions rest = []
        \/ exists h, submissions rest = [UpdateStartResearch h q]).
Proof.
  intros H. apply driver_complete in H.
  destruct H as (trR & r & HR & H). exists trR, r.
  destruct r as [e|h].
  - destruct H as [-> _]. exists []. rewrite app_nil_r. auto.
  - destruct H as (trE & vE & trD & -> & HE & HD). exists (trE ++ trD).
    destruct (ensure_started_calls _ _ _ _ HE) as [HsE HqE].
    assert (starts trD = [] /\ submissions trD = []) as [HsD HqD].
    { destruct vE as [e|u].
      - destruct HD as [-> _]. auto.
      - apply (after_start_quiet h). now apply (drive_only h trD (Ret v)). }
    rewrite starts_app, submissions_app, HsE, HsD, HqD, app_nil_r.
    repeat split; auto.
    destruct HqE as [->| ->]; [now left|right; now exists h].
Qed.

(** ** The driver, from start to end *)

(** X14.  Once it holds a handle, the driver keeps to it: in every run of
    [drive h], finished or not, each call is a line on the terminal, a
    prompt, a sleep, or a query, answer, signal, description or result
    request addressed to [h]; it never looks up or starts a workflow,
    never reads the clock and never submits the query again. *)
Theorem drive_keeps_to_its_handle h tr t' :
  exec (drive h) tr t' -> forallb (after_start h) (calls tr) = true.
Proof.
  revert tr t'. change (only (after_start h) (drive h)).
  unfold drive. apply only_mbind.
  - apply interactive_loop_only.
  - intros [|]; [apply await_final_result_only|apply only_ret].
Qed.

Lemma drive_keeps_to_its_handle_witness :
  forallb (after_start 5)
    (calls
       [Obs (QueryGetStatus 5) (inr (Some (budget_snapshot 0)));
        Obs (Print MNeedClarifications) tt; Obs (Print MDashes) tt;
        Obs (Print (MQuestionOf 1 2)) tt; Obs (Print (MQuestion "Budget?")) tt;
        Obs (Input "Your answer: ") (inr "quit"); Obs (Print MEnding) tt;
        Obs (SignalEndWorkflow 5) (inr tt)]) = true.
Proof.
  apply (drive_keeps_to_its_handle 5 _ (Ret (inr None))).
  apply (run_sound 30 _ [RStatus (inr (Some (budget_snapshot 0)));
                         RText (inr "quit"); RAck (inr tt)]).
  vm_compute. reflexivity.
Defined.

(** X15.  A complete run of the driver starts at most one workflow, and
    then under the identifier it was given followed by ["-"] and the
    clock, on the queue ["openai-agents-task-queue"]; and it submits the
    query at most once, the query it was given. *)
Theorem driver_starts_and_submits_at_most_once c q wid tr v :
  exec (run_interactive_research_with_clarifications c q wid) tr (Ret v) ->
  (starts tr = []
   \/ exists now, starts tr = [StartWorkflow c (unique_id wid now) task_queue])
  /\ (submissions tr = []
      \/ exists h, submissions tr = [UpdateStartResearch h q]).
Proof.
  intros H. apply driver_pieces in H.
  destruct H as (trR & r & rest & -> & HR & Hs & Hq).
  destruct (resolve_run_calls _ _ _ _ HR) as [HsR HqR].
  rewrite !starts_app, !submissions_app, Hs, HqR, app_nil_r.
  split; [exact HsR|exact Hq].
Qed.

Lemma driver_starts_and_submits_at_most_once_witness :
  (starts restarted_run = []
   \/ exists now,
       starts restarted_run = [StartWorkflow 0 (unique_id "wf" now) task_queue])
  /\ (submissions restarted_run = []
      \/ exists h, submissions restarted_run = [UpdateStartResearch h "surfing"]).
Proof.
  apply (driver_starts_and_submits_at_most_once
           0 "surfing" "wf" _ (inl "workflow failed")).
  apply (run_sound 40 _ [RHandle (inr 5); RStatus (inr None);
                         RClock 1700000000%Z; RHandle (inr 6);
                         RStatus (inr None);
                         RSnapshot (inr researching_snapshot);
                         RStatus (inr (Some completed_snapshot));
                         RText (inl "workflow failed")]).
  vm_compute. reflexivity.
Defined.

(** ** Status and clarify modes *)

(** X16.  [get_workflow_status] never raises and only reads: its complete
    runs are a handle lookup and one status query, followed by the lines
    of the report, or by the one error line when either call raises.  For
    a snapshot it prints the status, the number of clarification
    questions when the list is not empty (all of them, answered or not),
    and that there is a final result when that is not empty; for an
    absent snapshot it says so. *)
Theorem get_workflow_status_report c wid tr v :
  cli_exec (get_workflow_status c wid) tr (Ret v) <->
  status_run c wid tr /\ v = inr tt.
Proof.
  split.
  - apply status_run_complete.
  - intros [H ->]. now apply status_run_exec.
Qed.

(** X17.  [send_clarifications] never raises: its complete runs are a
    handle lookup and at most one [provide_clarifications] update, which
    carries the mapping as given; success prints two lines, the second
    with the status of the snapshot the update returned, and an exception
    of either call prints one error line. *)
Theorem send_clarifications_report c wid d tr v :
  cli_exec (send_clarifications c wid d) tr (Ret v) <->
  send_run c wid d tr /\ v = inr tt.
Proof.
  split.
  - apply send_run_complete.
  - intros [H ->]. now apply send_run_exec.
Qed.

(** ** [main] *)

(** X18.  Whatever the arguments, when the connection fails [main] prints
    the failure and the hint and returns normally: it makes no other
    call and raises nothing. *)
Theorem main_without_connection args e tr v :
  cli_exec (main args) (CObs (Connect server) (inl e) :: tr) (Ret v) <->
  tr = [said (LConnectFailed e); said LConnectHint] /\ v = inr tt.
Proof.
  split.
  - intros H. apply main_complete in H.
    destruct H as [(e0 & E & ->)|(c & tr' & E & _)];
      apply cobs_cons_inj in E; destruct E as [E1 E2]; [|discriminate].
    injection E1 as ->. auto.
  - intros [-> ->]. apply main_not_connected.
Qed.

(** X19.  [--status] wins over every other argument: with it, a complete
    run of [main] returns normally and is made of the connection, a
    handle lookup, a status query and printed lines only; no workflow is
    started, updated or signalled and nothing is asked of the user,
    whatever the query, [--clarify] and [--new-session] say. *)
Theorem status_mode_only_reads args tr v :
  args_status args = true ->
  cli_exec (main args) tr (Ret v) ->
  v = inr tt /\ forallb read_only (cli_calls tr) = true.
Proof.
  intros Hs H.
  apply (main_by_mode args
           (fun c => get_workflow_status c (args_workflow_id args))) in H.
  2:{ intros c. unfold dispatch. now rewrite Hs. }
  destruct H as [(e & -> & ->)|(c & tr' & -> & H)]; [auto|].
  apply status_run_complete in H. destruct H as [H ->].
  split; [reflexivity|]. exact (status_run_read_only _ _ _ H).
Qed.

Lemma status_mode_only_reads_witness :
  @inr exn unit tt = inr tt
  /\ forallb read_only
       (cli_calls
          [CObs (Connect server) (inr 0); said LConnected;
           CObs (Driver (GetWorkflowHandle 0 "wf")) (inr 5);
           CObs (Driver (QueryGetStatus 5)) (inr (Some (budget_snapshot 0)));
           said (LStatus "wf" "awaiting_clarifications");
           said (LPendingQuestions 2)]) = true.
Proof.
  apply (status_mode_only_reads
           (mkArgs (Some "surfing") "wf" true true (Some ["question_0=a"]))).
  - reflexivity.
  - apply main_connected.
    apply (status_run_exec 0 "wf" _ (status_shown 0 "wf" 5 (budget_snapshot 0))).
Defined.

(** X20.  Without [--status] and with [--clarify], [main] ignores the
    query and [--new-session]: once connected it sends the mapping that
    [parse_clarifications] makes of the arguments, in one update at most,
    to the workflow named by [--workflow-id], and returns normally.  The
    mapping is sent even when no argument held a separator and it is
    empty. *)
Theorem clarify_mode_sends_the_parsed_mapping args l tr v :
  args_status args = false ->
  args_clarify args = Some l ->
  truthy_list (Some l) = true ->
  cli_exec (main args) tr (Ret v) <->
  (exists e,
      tr = [CObs (Connect server) (inl e);
            said (LConnectFailed e); said LConnectHint]
      /\ v = inr tt)
  \/ (exists c d tr',
         tr = CObs (Connect server) (inr c) :: said LConnected :: tr'
         /\ parse_clarifications l = inr d
         /\ send_run c (args_workflow_id args) d tr'
         /\ v = inr tt).
Proof.
  intros Hs Hc Ht.
  destruct (parse_clarifications_from l [] (NoDup_nil _)) as (d & Hd & _).
  change (parse_clarifications l = inr d) in Hd.
  rewrite (main_by_mode args
             (fun c => send_clarifications c (args_workflow_id args) d)).
  2:{ intros c. unfold dispatch. rewrite Hs, Hc, Ht, Hd. reflexivity. }
  split; (intros [H|H]; [now left|right]).
  - destruct H as (c & tr' & -> & H). apply send_run_complete in H.
    destruct H as [H ->]. exists c, d, tr'. auto.
  - destruct H as (c & d' & tr' & -> & Hd' & H & ->).
    assert (d' = d) as -> by congruence.
    exists c, tr'. split; [reflexivity|]. now apply send_run_exec.
Qed.

Lemma clarify_mode_sends_the_parsed_mapping_witness :
  cli_exec
    (main (mkArgs (Some "surfing") "wf" true false (Some ["budget"])))
    [CObs (Connect server) (inr 0); said LConnected;
     CObs (Driver (GetWorkflowHandle 0 "wf")) (inr 5);
     CObs (UpdateProvideClarifications 5 []) (inr researching_snapshot);
     said (LSent "wf"); said (LUpdatedStatus "researching")]
    (Ret (inr tt)).
Proof.
  apply (proj2 (clarify_mode_sends_the_parsed_mapping
                  (mkArgs (Some "surfing") "wf" true false (Some ["budget"]))
                  ["budget"] _ _ eq_refl eq_refl eq_refl)).
  right. exists 0, []. eexists. split; [reflexivity|].
  split; [reflexivity|]. split; [|reflexivity].
  apply (send_done 0 "wf" [] 5 researching_snapshot).
Defined.

(** X21.  With a query and neither [--status] nor [--clarify], [main]
    connects and then awaits the driver on that query.  Without
    [--new-session] the driver gets the workflow identifier as given; with
    it, [main] reads the clock, prints the new identifier and hands the
    driver the identifier followed by ["-"] and the clock.  [main]
    returns normally when the driver does, whatever its result, and
    raises what the driver raises. *)
Theorem query_mode_runs_the_driver args q tr v :
  args_status args = false ->
  truthy_list (args_clarify args) = false ->
  args_query args = Some q ->
  truthy_string (Some q) = true ->
  cli_exec (main args) tr (Ret v) <->
  (exists e,
      tr = [CObs (Connect server) (inl e);
            said (LConnectFailed e); said LConnectHint]
      /\ v = inr tt)
  \/ (exists c pre wid tr0 v0,
         tr = CObs (Connect server) (inr c) :: said LConnected
              :: pre ++ map lift_obs tr0
         /\ session args pre wid
         /\ exec (run_interactive_research_with_clarifications c q wid)
                 tr0 (Ret v0)
         /\ v = discard v0).
Proof.
  intros Hs Hc Hq Ht.
  rewrite (main_by_mode args (fun c => query_mode c args q)).
  2:{ intros c. unfold dispatch. rewrite Hs, Hc, Hq, Ht. reflexivity. }
  split; (intros [H|H]; [now left|right]).
  - destruct H as (c & tr' & -> & H). apply query_mode_complete in H.
    destruct H as (pre & wid & tr0 & v0 & -> & H).
    exists c, pre, wid, tr0, v0. auto.
  - destruct H as (c & pre & wid & tr0 & v0 & -> & H).
    exists c. eexists. split; [reflexivity|].
    apply query_mode_complete. exists pre, wid, tr0, v0. auto.
Qed.

Lemma query_mode_runs_the_driver_witness :
  cli_exec
    (main (mkArgs (Some "surfing") "wf" false false None))
    (CObs (Connect server) (inr 0) :: said LConnected
     :: [] ++ map lift_obs restarted_run)
    (Ret (inl "workflow failed")).
Proof.
  apply (proj2 (query_mode_runs_the_driver
                  (mkArgs (Some "surfing") "wf" false false None)
                  "surfing" _ _ eq_refl eq_refl eq_refl eq_refl)).
  right. exists 0, [], "wf", restarted_run, (inl "workflow failed").
  split; [reflexivity|]. split; [now apply session_same|].
  split; [|reflexivity].
  apply (run_sound 40 _ [RHandle (inr 5); RStatus (inr None);
                         RClock 1700000000%Z; RHandle (inr 6);
                         RStatus (inr None);
                         RSnapshot (inr researching_snapshot);
                         RStatus (inr (Some completed_snapshot));
                         RText (inl "workflow failed")]).
  vm_compute. reflexivity.
Defined.

(** X22.  A workflow that [main] starts in query mode with
    [--new-session] carries two clock suffixes: the one [main] appends
    and the one the driver appends to whatever identifier it is given.
    Without the flag it carries the driver's alone. *)
Theorem new_session_identifier_has_two_suffixes args q tr v c id tq :
  args_status args = false ->
  truthy_list (args_clarify args) = false ->
  args_query args = Some q ->
  truthy_string (Some q) = true ->
  cli_exec (main args) tr (Ret v) ->
  In (Driver (StartWorkflow c id tq)) (cli_calls tr) ->
  if args_new_session args
  then exists t1 t2,
      id = unique_id (unique_id (args_workflow_id args) t1) t2
  else exists t, id = unique_id (args_workflow_id args) t.
Proof.
  intros Hs Hc Hq Ht H Hin.
  apply (main_by_mode args (fun c => query_mode c args q)) in H.
  2:{ intros c0. unfold dispatch. rewrite Hs, Hc, Hq, Ht. reflexivity. }
  destruct H as [(e & -> & _)|(c0 & tr' & -> & H)].
  { cbn in Hin. intuition discriminate. }
  apply query_mode_complete in H.
  destruct H as (pre & wid & tr0 & v0 & -> & Hse & H0 & _).
  assert (In (StartWorkflow c id tq) (starts tr0)) as Hst.
  { unfold starts. apply filter_In. split; [|reflexivity].
    unfold cli_calls in Hin. cbn [map cli_call_of] in Hin.
    destruct Hin as [Hin|[Hin|Hin]]; try discriminate.
    rewrite map_app in Hin. apply in_app_or in Hin.
    destruct Hin as [Hin|Hin].
    - destruct Hse; cbn in Hin; intuition discriminate.
    - unfold calls. rewrite map_map in Hin. apply in_map_iff in Hin.
      destruct Hin as ([c1 r1] & E & Hin). cbn in E. injection E as ->.
      apply in_map_iff. exists (Obs (StartWorkflow c id tq) r1). auto. }
  apply driver_pieces in H0.
  destruct H0 as (trR & r & rest & -> & HR & Hs' & _).
  rewrite !starts_app, Hs', app_nil_r in Hst.
  destruct (resolve_run_calls _ _ _ _ HR) as [[E|(t & E)] _];
    rewrite E in Hst; cbn in Hst; [contradiction|].
  destruct Hst as [[= _ <- _]|[]].
  destruct Hse as [En|t1 En]; rewrite En; eauto.
Qed.

Lemma new_session_identifier_has_two_suffixes_witness :
  exists t1 t2, "wf-1700000000-1700000001"
                = unique_id (unique_id "wf" t1) t2.
Proof.
  apply (new_session_identifier_has_two_suffixes
           (mkArgs (Some "surfing") "wf" true false None) "surfing"
           (CObs (Connect server) (inr 0) :: said LConnected
            :: [CObs (Driver Time) 1700000000%Z;
                said (LNewSession "wf-1700000000")]
            ++ map lift_obs
                 [Obs (Print (MStarting "surfing")) tt;
                  Obs (GetWorkflowHandle 0 "wf-1700000000") (inl "not found");
                  Obs (Print MNotFound) tt;
                  Obs Time 1700000001%Z;
                  Obs (Print (MStartingNew "wf-1700000000-1700000001")) tt;
                  Obs (StartWorkflow 0 "wf-1700000000-1700000001" task_queue)
                      (inl "unavailable");
                  Obs (Print (MFailedStart "unavailable")) tt])
           (inl "unavailable") 0 "wf-1700000000-1700000001" task_queue
           eq_refl eq_refl eq_refl eq_refl).
  - apply main_connected.
    apply (proj2 (query_mode_complete
                    0 (mkArgs (Some "surfing") "wf" true false None)
                    "surfing" _ _)).
    eexists _, "wf-1700000000", _, (inl "unavailable").
    split; [reflexivity|].
    split;
      [exact (session_new (mkArgs (Some "surfing") "wf" true false None)
                          1700000000%Z eq_refl)|].
    split; [|reflexivity].
    apply (run_sound 20 _ [RHandle (inl "not found"); RClock 1700000001%Z;
                           RHandle (inl "unavailable")]).
    vm_compute. reflexivity.
  - vm_compute. tauto.
Defined.

(** X23.  With no [--status], no [--clarify] and no query (or an empty
    one), [main] prints its banner and asks for the query.  An exception
    of [input] is not caught and leaves [main]; a reply that holds only
    white space prints that the query cannot be empty and ends [main]
    with no call to the engine; any other reply is trimmed and handed to
    the driver with the workflow identifier as given, [--new-session]
    being ignored in this mode. *)
Theorem prompt_mode_asks_for_the_query args tr v :
  args_status args = false ->
  truthy_list (args_clarify args) = false ->
  truthy_string (args_query args) = false ->
  cli_exec (main args) tr (Ret v) <->
  (exists e,
      tr = [CObs (Connect server) (inl e);
            said (LConnectFailed e); said LConnectHint]
      /\ v = inr tt)
  \/ (exists c r rest,
         tr = CObs (Connect server) (inr c) :: said LConnected
              :: said LBanner :: said LRule
              :: CObs (Driver (Input "Enter your research query: ")) r
              :: rest
         /\ prompt_outcome c args r rest v).
Proof.
  intros Hs Hc Hq.
  rewrite (main_by_mode args (fun c => prompt_mode c args)).
  2:{ intros c. unfold dispatch. rewrite Hs, Hc, Hq. reflexivity. }
  split; (intros [H|H]; [now left|right]).
  - destruct H as (c & tr' & -> & H). apply prompt_mode_complete in H.
    destruct H as (r & rest & -> & H). exists c, r, rest. auto.
  - destruct H as (c & r & rest & -> & H).
    exists c. eexists. split; [reflexivity|].
    apply prompt_mode_complete. exists r, rest. auto.
Qed.

Lemma prompt_mode_asks_for_the_query_witness :
  cli_exec
    (main (mkArgs (Some "") "wf" true false None))
    [CObs (Connect server) (inr 0); said LConnected;
     said LBanner; said LRule;
     CObs (Driver (Input "Enter your research query: ")) (inr "   ");
     said LEmptyQuery]
    (Ret (inr tt)).
Proof.
  apply (proj2 (prompt_mode_asks_for_the_query
                  (mkArgs (Some "") "wf" true false None)
                  _ _ eq_refl eq_refl eq_refl)).
  right. exists 0, (inr "   "), [said LEmptyQuery].
  split; [reflexivity|]. split; reflexivity.
Defined.
